(** * avarjoyas-api: a shallow embedding of [server.js]

    The server is an Express application: eleven routes, one middleware
    ([requireAuth]), a PostgreSQL pool, a bcrypt comparison, a JSON web
    token codec and a transactional mail client.  Every route handler is
    embedded as a function from the request, the process configuration, the
    per-request environment (clock, faults of the external calls) and the
    store to a result: the response written, the store afterwards and the
    sequence of external effects performed.

    Strings are sequences of code units; one [ascii] stands for one code
    unit below 256. *)

From stdpp Require Import base numbers strings list gmap sorting.
From Stdlib Require Import QArith Ascii DecimalString.

Open Scope string_scope.
Open Scope Z_scope.

(** ** JavaScript values *)

(** What [express.json()] can put in a body field, plus [undefined] for a
    field that is not there.  A number is a rational. *)
#[warnings="-register-all"] Inductive value : Type :=
  | VUndefined
  | VNull
  | VBool (b : bool)
  | VNum (q : Q)
  | VStr (s : string)
  | VArr (l : list value)
  | VObj (l : list (string * value)).

(** [!!v] *)
Definition truthy (v : value) : bool :=
  match v with
  | VUndefined | VNull => false
  | VBool b => b
  | VNum q => negb (Qeq_bool q 0)
  | VStr s => negb (String.eqb s "")
  | VArr _ | VObj _ => true
  end.

(** [!v] *)
Definition falsy (v : value) : bool := negb (truthy v).

(** [v == null] *)
Definition nullish (v : value) : bool :=
  match v with
  | VUndefined | VNull => true
  | _ => false
  end.

(** [v !== s] for a string [s] *)
Definition strict_neq_str (v : value) (s : string) : bool :=
  match v with
  | VStr t => negb (String.eqb t s)
  | _ => true
  end.

(** [!s] for a string that may be undefined (an environment variable, a
    header, an array element): [undefined] and the empty string are both
    falsy. *)
Definition blank (o : option string) : bool :=
  match o with
  | None => true
  | Some s => String.eqb s ""
  end.

(** A request body or query string: the object's own fields. *)
Abbreviation fields := (gmap string value).

(** Destructuring [const { k } = obj]. *)
Definition field (k : string) (o : fields) : value :=
  default VUndefined (o !! k).

(** Destructuring with a default: [const { k = d } = obj]. *)
Definition field_or (k : string) (d : value) (o : fields) : value :=
  match field k o with
  | VUndefined => d
  | v => v
  end.

(** ** [String.prototype.split(" ")] *)

Definition is_sp (c : ascii) : bool := Ascii.eqb c " "%char.

Fixpoint split_sp (s : string) : list string :=
  match s with
  | EmptyString => [""]
  | String c s' =>
      if is_sp c then "" :: split_sp s'
      else match split_sp s' with
           | [] => [String c ""]
           | w :: ws => String c w :: ws
           end
  end.

Fixpoint no_sp (s : string) : bool :=
  match s with
  | EmptyString => true
  | String c s' => negb (is_sp c) && no_sp s'
  end.

(** ** The regular expression of the subscription route *)

Inductive re : Type :=
  | Void
  | Eps
  | Cls (p : ascii → bool)
  | Cat (r1 r2 : re)
  | Alt (r1 r2 : re)
  | Star (r : re).

Definition Plus (r : re) : re := Cat r (Star r).

Fixpoint nullable (r : re) : bool :=
  match r with
  | Void => false
  | Eps => true
  | Cls _ => false
  | Cat r1 r2 => nullable r1 && nullable r2
  | Alt r1 r2 => nullable r1 || nullable r2
  | Star _ => true
  end.

Fixpoint deriv (c : ascii) (r : re) : re :=
  match r with
  | Void | Eps => Void
  | Cls p => if p c then Eps else Void
  | Cat r1 r2 =>
      if nullable r1 then Alt (Cat (deriv c r1) r2) (deriv c r2)
      else Cat (deriv c r1) r2
  | Alt r1 r2 => Alt (deriv c r1) (deriv c r2)
  | Star r1 => Cat (deriv c r1) (Star r1)
  end.

(** [/^r$/.test(s)] *)
Fixpoint re_test (r : re) (s : string) : bool :=
  match s with
  | EmptyString => nullable r
  | String c s' => re_test (deriv c r) s'
  end.

(** [\s] on code units below 256: TAB, LF, VT, FF, CR, SP, NBSP. *)
Definition is_space (c : ascii) : bool :=
  let n := nat_of_ascii c in
  ((9 <=? n) && (n <=? 13) || (n =? 32) || (n =? 160))%nat.

(** [[^\s@]] *)
Definition not_space_at (c : ascii) : bool :=
  negb (is_space c || Ascii.eqb c "@"%char).

Definition is_char (d : ascii) : ascii → bool := Ascii.eqb d.

(** [/^[^\s@]+@[^\s@]+\.[^\s@]+$/] *)
Definition email_re : re :=
  Cat (Plus (Cls not_space_at))
    (Cat (Cls (is_char "@"))
       (Cat (Plus (Cls not_space_at))
          (Cat (Cls (is_char "."))
             (Plus (Cls not_space_at))))).

(** ** HTTP messages *)

Record Request : Type := mkRequest {
  authorization : option string;   (* req.headers.authorization *)
  body : fields;                   (* req.body *)
  params_id : string;              (* req.params.id *)
  query : fields;                  (* req.query *)
  req_user : value                 (* req.user, set by requireAuth *)
}.

Definition set_user (u : value) (rq : Request) : Request :=
  {| authorization := authorization rq; body := body rq;
     params_id := params_id rq; query := query rq; req_user := u |}.

Record Response : Type := mkResponse {
  status : Z;
  payload : option value     (* the JSON body; None for an empty body *)
}.

(** [res.status(c).json(v)] *)
Definition json (c : Z) (v : value) : Response :=
  {| status := c; payload := Some v |}.

(** [res.sendStatus(204)] *)
Definition sendStatus (c : Z) : Response :=
  {| status := c; payload := None |}.

(** [{ error: msg }] *)
Definition error_body (msg : string) : value := VObj [("error", VStr msg)].

(** What a route did with the response object: it wrote one, or the
    handler's promise rejected before any response was written. *)
Inductive outcome : Type :=
  | Sent (r : Response)
  | Unhandled.

(** ** Process configuration and per-request environment *)

(** [process.env], read at each use. *)
Record Config : Type := mkConfig {
  ADMIN_USER : option string;
  ADMIN_PASS_HASH : option string;
  JWT_SECRET : string
}.

(** What the outside world decides for one request: the clock (epoch
    seconds) and whether the datastore or the mail provider fails, with
    the message of the error it throws. *)
Record Env : Type := mkEnv {
  now : Z;
  db_fault : option string;
  mail_fault : option string
}.

(** ** The token codec *)

(** Modelled from the spec: the token codec ([jsonwebtoken]) is not in
    src/.  A token is an opaque signed string encoding an identity claim,
    its issuance time and its expiry (spec 3, SessionToken). *)
Record claims : Type := mkClaims {
  user : value;
  iat : Z;
  exp : Z
}.

(** Modelled from the spec: the decoded structure of a token, the claims
    and the signature that came with them. *)
Record jws : Type := mkJws {
  jws_claims : claims;
  jws_sig : string
}.

(** Modelled from the spec: why [verify] fails (spec 4.1). *)
Inductive InvalidToken : Type :=
  | Malformed
  | BadSignature
  | Expired.

(** ** The external libraries

    The parts of the platform whose code is outside the repository, taken
    as they are used: the language's string conversion, the store's
    parameter coercions and pattern match, the password hash comparison
    and the primitives of the token codec. *)
Record Platform : Type := mkPlatform {
  js_string : value → string;            (* String(v), v not a string *)
  pg_int : value → option Z;             (* parameter as integer; None: rejected *)
  pg_text : value → string;              (* non-string parameter as text *)
  ilike : string → string → bool;        (* text ILIKE pattern *)
  to_char_day : Z → string;              (* TO_CHAR(ts, 'YYYY-MM-DD') *)
  bcrypt_compare : value → string → option bool;  (* None: rejects *)
  jws_mac : string → claims → string;    (* keyed signature of the claims *)
  jws_encode : jws → string;
  jws_decode : string → option jws       (* None: not a token *)
}.

(** String conversion of a template literal or of [RegExp.test]. *)
Definition text (P : Platform) (v : value) : string :=
  match v with
  | VStr s => s
  | _ => js_string P v
  end.

(** A text parameter as the store receives it. *)
Definition param_text (P : Platform) (v : value) : string :=
  match v with
  | VStr s => s
  | _ => pg_text P v
  end.

(** [expiresIn: "8h"], in seconds. *)
Definition expiresIn : Z := 8 * 3600.

(** Modelled from the spec: [issue] binds the claim and the absolute
    expiry, issuance time plus eight hours, under the process secret
    (spec 4.1). *)
Definition jwt_sign (P : Platform) (secret : string) (t : Z) (u : value)
  : string :=
  let c := {| user := u; iat := t; exp := t + expiresIn |} in
  jws_encode P {| jws_claims := c; jws_sig := jws_mac P secret c |}.

(** Modelled from the spec: [verify] fails if the structure is malformed,
    the signature does not match, or the current time is at or past the
    encoded expiry; otherwise it returns the embedded claims (spec 4.1). *)
Definition jwt_verify (P : Platform) (secret : string) (t : Z) (tok : string)
  : InvalidToken + claims :=
  match jws_decode P tok with
  | None => inl Malformed
  | Some j =>
      if String.eqb (jws_mac P secret (jws_claims j)) (jws_sig j) then
        if exp (jws_claims j) <=? t then inl Expired
        else inr (jws_claims j)
      else inl BadSignature
  end.

(** ** The datastore *)

(** Modelled from the spec: the table definitions are not in src/.  A
    catalog item has a generated id and the six columns the statements
    name (spec 3, CatalogItem). *)
Record producto : Type := mkProducto {
  p_id : Z;
  p_nombre : value;
  p_precio : value;
  p_categoria : value;
  p_stock : value;
  p_imagen : value;
  p_nueva_coleccion : value
}.

(** Modelled from the spec: a subscriber has a generated id, an email and
    a server-assigned timestamp (spec 3, Subscriber). *)
Record suscriptor : Type := mkSuscriptor {
  s_id : Z;
  s_email : string;
  s_fecha : Z
}.

(** Modelled from the spec: the two tables, each with the sequence that
    generates its ids. *)
Record Store : Type := mkStore {
  productos : list producto;
  productos_seq : Z;
  suscriptores : list suscriptor;
  suscriptores_seq : Z
}.

(** The statements the source sends, with their parameters. *)
Inductive statement : Type :=
  | SelectProductos
  | InsertProducto (nombre precio categoria stock imagen nueva : value)
  | UpdateProducto (nombre precio categoria stock imagen nueva id : value)
  | DeleteProducto (id : value)
  | InsertSuscriptor (email : value)
  | SelectSuscriptores (pattern : string) (limit offset : value)
  | DeleteSuscriptor (id : value)
  | SelectNow.

(** [result.rows] and [result.rowCount] *)
Record QueryResult : Type := mkResult {
  rows : list value;
  rowCount : nat
}.

(** An unset parameter reaches the store as NULL. *)
Definition pg_param (v : value) : value :=
  match v with
  | VUndefined => VNull
  | _ => v
  end.

Definition num (z : Z) : value := VNum (inject_Z z).

Definition producto_row (p : producto) : value :=
  VObj [("id", num (p_id p)); ("nombre", p_nombre p);
        ("precio", p_precio p); ("categoria", p_categoria p);
        ("stock", p_stock p); ("imagen", p_imagen p);
        ("nueva_coleccion", p_nueva_coleccion p)].

(** A timestamp is written as its epoch second. *)
Definition suscriptor_row (s : suscriptor) : value :=
  VObj [("id", num (s_id s)); ("email", VStr (s_email s));
        ("fecha", num (s_fecha s))].

(** [ORDER BY id DESC] *)
Definition id_desc (a b : producto) : Prop := p_id b ≤ p_id a.

(** [ORDER BY fecha DESC] *)
Definition fecha_desc (a b : suscriptor) : Prop := s_fecha b ≤ s_fecha a.

#[global] Instance id_desc_dec a b : Decision (id_desc a b).
Proof. unfold id_desc. apply _. Defined.

#[global] Instance fecha_desc_dec a b : Decision (fecha_desc a b).
Proof. unfold fecha_desc. apply _. Defined.

(** The message of the error the store raises for a parameter it cannot
    coerce. *)
Definition pg_reject : string := "invalid input syntax".

Definition has_id (k : Z) (p : producto) : bool := p_id p =? k.
Definition sus_has_id (k : Z) (s : suscriptor) : bool := s_id s =? k.
Definition has_email (e : string) (s : suscriptor) : bool :=
  String.eqb (s_email s) e.

Definition set_columns (n pr c st im nu : value) (p : producto) : producto :=
  {| p_id := p_id p; p_nombre := pg_param n; p_precio := pg_param pr;
     p_categoria := pg_param c; p_stock := pg_param st;
     p_imagen := pg_param im; p_nueva_coleccion := pg_param nu |}.

Definition with_productos (l : list producto) (z : Z) (s : Store) : Store :=
  {| productos := l; productos_seq := z;
     suscriptores := suscriptores s; suscriptores_seq := suscriptores_seq s |}.

Definition with_suscriptores (l : list suscriptor) (z : Z) (s : Store)
  : Store :=
  {| productos := productos s; productos_seq := productos_seq s;
     suscriptores := l; suscriptores_seq := z |}.

(** One statement against the store: a rejection with its message, or the
    result and the store afterwards. *)
Definition exec (P : Platform) (t : Z) (q : statement) (s : Store)
  : string + QueryResult * Store :=
  match q with
  | SelectProductos =>
      let l := merge_sort id_desc (productos s) in
      inr ({| rows := producto_row <$> l; rowCount := length l |}, s)
  | InsertProducto n pr c st im nu =>
      let p := set_columns n pr c st im nu
                 {| p_id := productos_seq s; p_nombre := VNull;
                    p_precio := VNull; p_categoria := VNull;
                    p_stock := VNull; p_imagen := VNull;
                    p_nueva_coleccion := VNull |} in
      inr ({| rows := [producto_row p]; rowCount := 1 |},
           with_productos (productos s ++ [p]) (productos_seq s + 1) s)
  | UpdateProducto n pr c st im nu id =>
      match pg_int P id with
      | None => inl pg_reject
      | Some k =>
          let hit := filter (λ p, has_id k p = true) (productos s) in
          let upd := λ p, if has_id k p then set_columns n pr c st im nu p
                          else p in
          inr ({| rows := producto_row <$> (upd <$> hit);
                  rowCount := length hit |},
               with_productos (upd <$> productos s) (productos_seq s) s)
      end
  | DeleteProducto id =>
      match pg_int P id with
      | None => inl pg_reject
      | Some k =>
          let hit := filter (λ p, has_id k p = true) (productos s) in
          let keep := filter (λ p, has_id k p = false) (productos s) in
          inr ({| rows := []; rowCount := length hit |},
               with_productos keep (productos_seq s) s)
      end
  | InsertSuscriptor email =>
      let e := param_text P email in
      if existsb (has_email e) (suscriptores s) then
        inr ({| rows := []; rowCount := 0 |}, s)
      else
        let r := {| s_id := suscriptores_seq s; s_email := e;
                    s_fecha := t |} in
        inr ({| rows := [suscriptor_row r]; rowCount := 1 |},
             with_suscriptores (suscriptores s ++ [r])
               (suscriptores_seq s + 1) s)
  | SelectSuscriptores pat lim off =>
      match pg_int P lim, pg_int P off with
      | Some l, Some o =>
          if (l <? 0) || (o <? 0) then inl pg_reject
          else
            let hit := filter (λ r, ilike P (s_email r) pat
                                   || ilike P (to_char_day P (s_fecha r)) pat
                                   = true) (suscriptores s) in
            let page := take (Z.to_nat l)
                          (drop (Z.to_nat o) (merge_sort fecha_desc hit)) in
            inr ({| rows := suscriptor_row <$> page;
                    rowCount := length page |}, s)
      | _, _ => inl pg_reject
      end
  | DeleteSuscriptor id =>
      match pg_int P id with
      | None => inl pg_reject
      | Some k =>
          let hit := filter (λ r, sus_has_id k r = true) (suscriptores s) in
          let keep := filter (λ r, sus_has_id k r = false) (suscriptores s) in
          inr ({| rows := suscriptor_row <$> hit; rowCount := length hit |},
               with_suscriptores keep (suscriptores_seq s) s)
      end
  | SelectNow =>
      inr ({| rows := [VObj [("now", num t)]]; rowCount := 1 |}, s)
  end.

(** ** Effects *)

(** The calls a handler makes to the outside, in the order it makes them. *)
Inductive effect : Type :=
  | Query (q : statement)                        (* pool.query *)
  | Compare (password : value) (hash : string)   (* bcrypt.compare *)
  | Email (sender recipient subject html : string)  (* resend.emails.send *)
  | ConsoleError (label err : string)
  | ConsoleLog (label : string).

Record World : Type := mkWorld {
  store : Store;
  trace : list effect
}.

(** A computation that may throw an error (its message) and that changes
    the store and extends the trace. *)
Definition M (A : Type) : Type := World → (string + A) * World.

Definition ret {A} (a : A) : M A := λ w, (inr a, w).

Definition bind {A B} (m : M A) (k : A → M B) : M B :=
  λ w, match m w with
       | (inl e, w') => (inl e, w')
       | (inr a, w') => k a w'
       end.

Definition throw {A} (e : string) : M A := λ w, (inl e, w).

(** [try { m } catch (err) { h err }] *)
Definition try_catch {A} (m : M A) (h : string → M A) : M A :=
  λ w, match m w with
       | (inl e, w') => h e w'
       | (inr a, w') => (inr a, w')
       end.

Definition emit (e : effect) : M unit :=
  λ w, (inr tt, {| store := store w; trace := trace w ++ [e] |}).

Declare Scope js_scope.
Delimit Scope js_scope with js.
Notation "x <- m ;; k" := (bind m (λ x, k))
  (at level 100, m at next level, right associativity) : js_scope.
Notation "m ;; k" := (bind m (λ _, k))
  (at level 100, right associativity) : js_scope.
Notation "'try' m 'catch' e => h" := (try_catch m (λ e, h))
  (at level 100, m at level 200, e name, h at level 200) : js_scope.

Section Server.
Context (P : Platform) (cfg : Config) (env : Env).

Local Open Scope js_scope.

(** [await pool.query(sql, params)] *)
Definition pool_query (q : statement) : M QueryResult :=
  emit (Query q) ;;
  match db_fault env with
  | Some m => throw m
  | None =>
      λ w, match exec P (now env) q (store w) with
           | inl m => (inl m, w)
           | inr (r, s') => (inr r, {| store := s'; trace := trace w |})
           end
  end.

(** [await bcrypt.compare(password, hash)] *)
Definition compare (password : value) (hash : string) : M bool :=
  emit (Compare password hash) ;;
  match bcrypt_compare P password hash with
  | Some b => ret b
  | None => throw "data and hash must be strings"
  end.

(** [await resend.emails.send({ from, to, subject, html })] *)
Definition emails_send (sender recipient subject html : string) : M unit :=
  emit (Email sender recipient subject html) ;;
  match mail_fault env with
  | Some m => throw m
  | None => ret tt
  end.

(** [auth.split(" ")[1]] of [req.headers.authorization || ""] *)
Definition bearer (rq : Request) : option string :=
  let auth := if blank (authorization rq) then ""
              else default "" (authorization rq) in
  split_sp auth !! 1%nat.

(** The middleware: [next] is the rest of the route. *)
Definition requireAuth (next : Request → M Response) (rq : Request)
  : M Response :=
  let token := bearer rq in
  if blank token then ret (json 401 (error_body "Token faltante"))
  else
    match jwt_verify P (JWT_SECRET cfg) (now env) (default "" token) with
    | inr c => next (set_user (user c) rq)
    | inl _ => ret (json 401 (error_body "Token inválido"))
    end.

(** [POST /api/login] *)
Definition login (rq : Request) : M Response :=
  let user := field "user" (body rq) in
  let password := field "password" (body rq) in
  if falsy user || falsy password then
    ret (json 400 (error_body "Credenciales faltantes"))
  else
    let adminUser := ADMIN_USER cfg in
    let adminHash := ADMIN_PASS_HASH cfg in
    if blank adminUser || blank adminHash then
      ret (json 500 (error_body "Autenticación no configurada"))
    else if strict_neq_str user (default "" adminUser) then
      ret (json 401 (error_body "Usuario o contraseña incorrectos"))
    else
      match_ <- compare password (default "" adminHash) ;;
      if negb match_ then
        ret (json 401 (error_body "Usuario o contraseña incorrectos"))
      else
        let token := jwt_sign P (JWT_SECRET cfg) (now env) user in
        ret (json 200 (VObj [("token", VStr token)])).

(** [GET /api/auth-check] *)
Definition auth_check (rq : Request) : M Response :=
  let token := bearer rq in
  if blank token then ret (json 401 (error_body "Token faltante"))
  else
    match jwt_verify P (JWT_SECRET cfg) (now env) (default "" token) with
    | inr c => ret (json 200 (VObj [("ok", VBool true); ("user", user c)]))
    | inl _ => ret (json 401 (error_body "Token inválido"))
    end.

(** [GET /api/productos] *)
Definition get_productos (rq : Request) : M Response :=
  try
    result <- pool_query SelectProductos ;;
    ret (json 200 (VArr (rows result)))
  catch err =>
    emit (ConsoleError "Error al obtener productos:" err) ;;
    ret (json 500 (error_body "Error al obtener productos")).

(** The validation shared by the two catalog mutations. *)
Definition missing_fields (nombre precio categoria stock : value) : bool :=
  falsy nombre || nullish precio || falsy categoria || nullish stock.

(** [result.rows[0]] *)
Definition first_row (r : QueryResult) : value :=
  default VUndefined (rows r !! 0%nat).

(** [POST /api/productos], after the middleware *)
Definition post_productos (rq : Request) : M Response :=
  let nombre := field "nombre" (body rq) in
  let precio := field "precio" (body rq) in
  let categoria := field "categoria" (body rq) in
  let stock := field "stock" (body rq) in
  let imagen := field "imagen" (body rq) in
  let nueva_coleccion := field "nueva_coleccion" (body rq) in
  if missing_fields nombre precio categoria stock then
    ret (json 400 (error_body "Faltan campos obligatorios"))
  else
    try
      result <- pool_query (InsertProducto nombre precio categoria stock
                              imagen nueva_coleccion) ;;
      ret (json 201
             (VObj [("mensaje", VStr "✅ Producto agregado correctamente");
                    ("producto", first_row result)]))
    catch err =>
      emit (ConsoleError "❌ Error al agregar producto:" err) ;;
      ret (json 500 (error_body "Error al agregar producto")).

(** [PUT /api/productos/:id], after the middleware *)
Definition put_productos (rq : Request) : M Response :=
  let id := VStr (params_id rq) in
  let nombre := field "nombre" (body rq) in
  let precio := field "precio" (body rq) in
  let categoria := field "categoria" (body rq) in
  let stock := field "stock" (body rq) in
  let imagen := field "imagen" (body rq) in
  let nueva_coleccion := field "nueva_coleccion" (body rq) in
  if missing_fields nombre precio categoria stock then
    ret (json 400 (error_body "Faltan campos obligatorios"))
  else
    try
      result <- pool_query (UpdateProducto nombre precio categoria stock
                              imagen nueva_coleccion id) ;;
      if (rowCount result =? 0)%nat then
        ret (json 404 (error_body "Producto no encontrado"))
      else
        ret (json 200
               (VObj [("mensaje",
                       VStr "✅ Producto actualizado correctamente");
                      ("producto", first_row result)]))
    catch err =>
      emit (ConsoleError "❌ Error al actualizar producto:" err) ;;
      ret (json 500 (error_body "Error al actualizar producto")).

(** [DELETE /api/productos/:id], after the middleware *)
Definition delete_productos (rq : Request) : M Response :=
  let id := VStr (params_id rq) in
  try
    pool_query (DeleteProducto id) ;;
    ret (sendStatus 204)
  catch err =>
    emit (ConsoleError "Error al eliminar producto:" err) ;;
    ret (json 500 (error_body "Error al eliminar producto")).

(** [POST /api/suscribirse] *)
Definition suscribirse (rq : Request) : M Response :=
  let email := field "email" (body rq) in
  if falsy email || negb (re_test email_re (text P email)) then
    ret (json 400 (error_body "Correo electrónico no válido"))
  else
    try
      result <- pool_query (InsertSuscriptor email) ;;
      if (rowCount result =? 0)%nat then
        ret (json 200 (VObj [("message", VStr "Ya estás suscrito 🥰")]))
      else
        ret (json 201
               (VObj [("message", VStr "¡Gracias por suscribirte! 💌")]))
    catch err =>
      emit (ConsoleError "Error al guardar suscripción:" err) ;;
      ret (json 500 (error_body "Error al registrar la suscripción")).

(** [GET /api/suscriptores], after the middleware *)
Definition get_suscriptores (rq : Request) : M Response :=
  try
    let search := field_or "search" (VStr "") (query rq) in
    let limit := field_or "limit" (num 50) (query rq) in
    let offset := field_or "offset" (num 0) (query rq) in
    result <- pool_query
                (SelectSuscriptores ("%" +:+ text P search +:+ "%")
                   limit offset) ;;
    ret (json 200 (VArr (rows result)))
  catch err =>
    emit (ConsoleError "Error al obtener suscriptores:" err) ;;
    ret (json 500 (error_body "Error al obtener la lista de suscriptores")).

(** [DELETE /api/suscriptores/:id], after the middleware *)
Definition delete_suscriptores (rq : Request) : M Response :=
  let id := VStr (params_id rq) in
  try
    result <- pool_query (DeleteSuscriptor id) ;;
    if (rowCount result =? 0)%nat then
      ret (json 404 (error_body "Suscriptor no encontrado"))
    else
      ret (json 200
             (VObj [("message", VStr "Suscriptor eliminado correctamente ✅")]))
  catch err =>
    emit (ConsoleError "Error al eliminar suscriptor:" err) ;;
    ret (json 500 (error_body "Error al eliminar el suscriptor")).

(** [GET /api/test] *)
Definition get_test (rq : Request) : M Response :=
  try
    result <- pool_query SelectNow ;;
    ret (json 200 (VObj [("ok", VBool true); ("time", first_row result)]))
  catch err =>
    emit (ConsoleError "❌ Error al probar conexión con Neon:" err) ;;
    ret (json 500 (VObj [("ok", VBool false); ("error", VStr err)])).

(** The [html] template of the contact mail. *)
Definition contact_html (nombre email mensaje : value) : string :=
  "
        <h3>Nuevo mensaje de contacto</h3>
        <p><strong>Nombre:</strong> " +:+ text P nombre +:+ "</p>
        <p><strong>Correo:</strong> " +:+ text P email +:+ "</p>
        <p><strong>Mensaje:</strong></p>
        <p>" +:+ text P mensaje +:+ "</p>
      ".

(** [POST /api/contacto] *)
Definition contacto (rq : Request) : M Response :=
  let nombre := field "nombre" (body rq) in
  let email := field "email" (body rq) in
  let mensaje := field "mensaje" (body rq) in
  if falsy nombre || falsy email || falsy mensaje then
    ret (json 400 (error_body "Todos los campos son obligatorios."))
  else
    try
      emails_send "AVAR Joyas 💎 <onboarding@resend.dev>"
        "avarjoyas@gmail.com"
        "💌 Nuevo mensaje desde el formulario de contacto"
        (contact_html nombre email mensaje) ;;
      emit (ConsoleLog "📩 RESEND RESPONSE:") ;;
      ret (json 200 (VObj [("success", VStr "Mensaje enviado correctamente ✅")]))
    catch error =>
      emit (ConsoleError "❌ Error al enviar mensaje con Resend:" error) ;;
      ret (json 500
             (VObj [("error",
                     VStr "No se pudo enviar el mensaje. Intenta más tarde.");
                    ("detalle", VStr error)])).
End Server.

(** ** Routing *)

Inductive route : Type :=
  | PostLogin             (* POST /api/login *)
  | GetAuthCheck          (* GET /api/auth-check *)
  | GetProductos          (* GET /api/productos *)
  | PostProductos         (* POST /api/productos *)
  | PutProductos          (* PUT /api/productos/:id *)
  | DeleteProductos       (* DELETE /api/productos/:id *)
  | PostSuscribirse       (* POST /api/suscribirse *)
  | GetSuscriptores       (* GET /api/suscriptores *)
  | DeleteSuscriptores    (* DELETE /api/suscriptores/:id *)
  | GetTest               (* GET /api/test *)
  | PostContacto.         (* POST /api/contacto *)

#[global] Instance route_eq_dec : EqDecision route.
Proof. solve_decision. Defined.

(** The last function of each registration. *)
Definition handler (P : Platform) (cfg : Config) (env : Env) (r : route)
  : Request → M Response :=
  match r with
  | PostLogin => login P cfg env
  | GetAuthCheck => auth_check P cfg env
  | GetProductos => get_productos P env
  | PostProductos => post_productos P env
  | PutProductos => put_productos P env
  | DeleteProductos => delete_productos P env
  | PostSuscribirse => suscribirse P env
  | GetSuscriptores => get_suscriptores P env
  | DeleteSuscriptores => delete_suscriptores P env
  | GetTest => get_test P env
  | PostContacto => contacto P env
  end.

(** The registrations, [app.METHOD(path, ...)], middleware included. *)
Definition app (P : Platform) (cfg : Config) (env : Env) (r : route)
  : Request → M Response :=
  match r with
  | PostLogin => login P cfg env
  | GetAuthCheck => auth_check P cfg env
  | GetProductos => get_productos P env
  | PostProductos => requireAuth P cfg env (post_productos P env)
  | PutProductos => requireAuth P cfg env (put_productos P env)
  | DeleteProductos => requireAuth P cfg env (delete_productos P env)
  | PostSuscribirse => suscribirse P env
  | GetSuscriptores => requireAuth P cfg env (get_suscriptores P env)
  | DeleteSuscriptores => requireAuth P cfg env (delete_suscriptores P env)
  | GetTest => get_test P env
  | PostContacto => contacto P env
  end.

(** The catalog mutations and the subscriber listing and deletion. *)
Definition protected (r : route) : bool :=
  match r with
  | PostProductos | PutProductos | DeleteProductos
  | GetSuscriptores | DeleteSuscriptores => true
  | _ => false
  end.

(** What one request leaves behind. *)
Record Result : Type := mkResultOf {
  out : outcome;
  final : Store;
  effects : list effect
}.

(** Running a computation from a store, with an empty trace. *)
Definition run (m : M Response) (s : Store) : Result :=
  match m {| store := s; trace := [] |} with
  | (inr r, w) => {| out := Sent r; final := store w; effects := trace w |}
  | (inl _, w) => {| out := Unhandled; final := store w; effects := trace w |}
  end.

(** One request served. *)
Definition serve (P : Platform) (cfg : Config) (env : Env) (r : route)
  (rq : Request) (s : Store) : Result :=
  run (app P cfg env r rq) s.

(** The request never reached the handler: a 401, the store untouched and
    no external call made. *)
Definition rejected (msg : string) (s : Store) : Result :=
  {| out := Sent (json 401 (error_body msg)); final := s; effects := [] |}.

(** ** A small instance of the platform

    Enough of a platform to run the routes on concrete requests: decimal
    integers, an exact pattern match, a hash that is the password behind a
    prefix and a token that spells out its claims. *)
Module Toy.

Definition int_of_text (s : string) : option Z :=
  Z.of_int <$> NilZero.int_of_string s.

Definition text_of_int (z : Z) : string :=
  NilZero.string_of_int (Z.to_int z).

Definition as_text (v : value) : string :=
  match v with
  | VStr s => s
  | VBool true => "true"
  | VBool false => "false"
  | VNull => "null"
  | VUndefined => "undefined"
  | VNum q => text_of_int (Qnum q)
  | VArr _ => ""
  | VObj _ => "[object Object]"
  end.

Definition as_int (v : value) : option Z :=
  match v with
  | VStr s => int_of_text s
  | VNum q => Some (Qnum q)
  | _ => None
  end.

(** The text before the first dot and the text after it. *)
Fixpoint cut (s : string) : option (string * string) :=
  match s with
  | EmptyString => None
  | String c s' =>
      if Ascii.eqb c "."%char then Some ("", s')
      else '(a, b) ← cut s'; Some (String c a, b)
  end.

Fixpoint starts_with (a s : string) : bool :=
  match a, s with
  | EmptyString, _ => true
  | String c a', String d s' => Ascii.eqb c d && starts_with a' s'
  | String _ _, EmptyString => false
  end.

Fixpoint contains (a s : string) : bool :=
  starts_with a s
  || match s with
     | EmptyString => false
     | String _ s' => contains a s'
     end.

(** A pattern [%x%] without its two percent signs. *)
Definition unwrap (pat : string) : string :=
  String.substring 1 (String.length pat - 2) pat.

Definition mac (secret : string) (c : claims) : string :=
  "mac-" +:+ secret +:+ "-" +:+ text_of_int (iat c) +:+ "-"
    +:+ text_of_int (exp c) +:+ "-" +:+ as_text (user c).

(** [iat.exp.user.signature] *)
Definition encode (j : jws) : string :=
  text_of_int (iat (jws_claims j)) +:+ "." +:+
  text_of_int (exp (jws_claims j)) +:+ "." +:+
  as_text (user (jws_claims j)) +:+ "." +:+ jws_sig j.

Definition decode (s : string) : option jws :=
  '(a, s1) ← cut s;
  '(b, s2) ← cut s1;
  '(u, sig) ← cut s2;
  i ← int_of_text a;
  e ← int_of_text b;
  Some {| jws_claims := {| user := VStr u; iat := i; exp := e |};
          jws_sig := sig |}.

Definition platform : Platform :=
  {| js_string := as_text;
     pg_int := as_int;
     pg_text := as_text;
     ilike := λ s pat, contains (unwrap pat) s;
     to_char_day := text_of_int;
     bcrypt_compare := λ pw h,
       match pw with
       | VStr s => Some (String.eqb ("$2b$" +:+ s) h)
       | _ => None
       end;
     jws_mac := mac;
     jws_encode := encode;
     jws_decode := decode |}.

Definition cfg : Config :=
  {| ADMIN_USER := Some "admin";
     ADMIN_PASS_HASH := Some "$2b$joyas";
     JWT_SECRET := "s3cr3t" |}.

(** The clock at 1000 s, no fault. *)
Definition env : Env :=
  {| now := 1000; db_fault := None; mail_fault := None |}.

Definition anillo : producto :=
  {| p_id := 1; p_nombre := VStr "Anillo"; p_precio := num 120;
     p_categoria := VStr "anillos"; p_stock := num 3;
     p_imagen := VNull; p_nueva_coleccion := VBool true |}.

Definition collar : producto :=
  {| p_id := 2; p_nombre := VStr "Collar"; p_precio := num 300;
     p_categoria := VStr "collares"; p_stock := num 1;
     p_imagen := VStr "collar.png"; p_nueva_coleccion := VBool false |}.

Definition ana : suscriptor :=
  {| s_id := 1; s_email := "ana@example.com"; s_fecha := 500 |}.

Definition db : Store :=
  {| productos := [anillo; collar]; productos_seq := 3;
     suscriptores := [ana]; suscriptores_seq := 2 |}.

Definition request (auth : option string) (id : string)
  (b : list (string * value)) : Request :=
  {| authorization := auth; body := list_to_map b; params_id := id;
     query := ∅; req_user := VUndefined |}.

(** The token a login at time 900 hands to the administrator. *)
Definition admin_token : string :=
  jwt_sign platform (JWT_SECRET cfg) 900 (VStr "admin").

(** A token signed with the same secret while the configured
    administrator was still called [root]. *)
Definition root_token : string :=
  jwt_sign platform (JWT_SECRET cfg) 900 (VStr "root").

(** The token a login at the time of [env] hands out. *)
Definition fresh_token : string :=
  jwt_sign platform (JWT_SECRET cfg) (now env) (VStr "admin").

(** A request to delete catalog item 1, under a bearer token. *)
Definition delete_one (token : string) : Request :=
  request (Some ("Bearer " +:+ token)) "1" [].

(** A request to delete the row with id 999, which no table has, under the
    administrator's token. *)
Definition delete_999 : Request :=
  request (Some ("Bearer " +:+ admin_token)) "999" [].

(** A login attempt. *)
Definition login_as (u pw : string) : Request :=
  request None "" [("user", VStr u); ("password", VStr pw)].

(** A contact form. *)
Definition contact_form (nombre email mensaje : string) : Request :=
  request None "" [("nombre", VStr nombre); ("email", VStr email);
                   ("mensaje", VStr mensaje)].

(** A subscription. *)
Definition subscribe (email : string) : Request :=
  request None "" [("email", VStr email)].

(** The administrator adds a free sample: price and stock are zero. *)
Definition free_sample : Request :=
  request (Some ("Bearer " +:+ admin_token)) ""
    [("nombre", VStr "Muestra"); ("categoria", VStr "regalos");
     ("precio", num 0); ("stock", num 0)].

(** An update of every column, price zero, of the row the address
    names. *)
Definition rename (id : string) : Request :=
  request None id [("nombre", VStr "Gargantilla"); ("precio", num 0);
                   ("categoria", VStr "collares"); ("stock", num 5)].


Definition rename_999 : Request := rename "999".

(** A listing of subscribers that asks for minus one row. *)
Definition negative_limit : Request :=
  {| authorization := None; body := ∅; params_id := "";
     query := list_to_map [("limit", VStr "-1")]; req_user := VUndefined |}.


(** A request with neither header nor body. *)
Definition plain : Request := request None "" [].

(** The store refusing connections, the mail provider refusing the key. *)
Definition down : Env :=
  {| now := 1000; db_fault := Some "ECONNREFUSED 10.0.0.7:5432";
     mail_fault := Some "API key is invalid" |}.

(** The store out of connections. *)
Definition busy : Env :=
  {| now := 1000; db_fault := Some "too many connections";
     mail_fault := None |}.

(** An hour later, no fault. *)
Definition later : Env :=
  {| now := 4600; db_fault := None; mail_fault := None |}.

End Toy.

(** ** Vocabulary of the properties *)

(** The body of both failures of a login with configured credentials. *)
Definition bad_credentials : Response :=
  json 401 (error_body "Usuario o contraseña incorrectos").

(** A field that is not there, or is null, or is the empty string. *)
Definition empty_or_absent (v : value) : Prop :=
  v = VUndefined ∨ v = VNull ∨ v = VStr "".

(** A call to the store. *)
Definition is_query (e : effect) : bool :=
  match e with
  | Query _ => true
  | _ => false
  end.

(** Modelled from the spec: the table definitions are not in src/.  Ids
    are unique and generated monotonically (spec 3, CatalogItem): no two
    rows share an id and every id in the table was drawn from the sequence
    before its present value. *)
Definition store_ok (s : Store) : Prop :=
  NoDup (p_id <$> productos s)
  ∧ Forall (λ p, p_id p < productos_seq s) (productos s)
  ∧ NoDup (s_email <$> suscriptores s).

(** [ORDER BY id DESC] on a table without duplicate ids *)
Definition id_above (a b : producto) : Prop := p_id b < p_id a.

(** A computation that keeps the invariant, whether it returns or
    throws. *)
Definition keeps {A} (m : M A) : Prop :=
  ∀ w, store_ok (store w) → store_ok (store (m w).2).

(** What it means for a string to match a regular expression. *)
Inductive matches : re → string → Prop :=
  | MEps : matches Eps ""
  | MCls p c : p c = true → matches (Cls p) (String c "")
  | MCat r1 r2 s1 s2 :
      matches r1 s1 → matches r2 s2 → matches (Cat r1 r2) (s1 +:+ s2)
  | MAltL r1 r2 s : matches r1 s → matches (Alt r1 r2) s
  | MAltR r1 r2 s : matches r2 s → matches (Alt r1 r2) s
  | MStar0 r : matches (Star r) ""
  | MStarS r s1 s2 :
      matches r s1 → matches (Star r) s2 → matches (Star r) (s1 +:+ s2).

(** A non-empty run of characters of one class. *)
Fixpoint all_chars (p : ascii → bool) (s : string) : bool :=
  match s with
  | EmptyString => true
  | String c s' => p c && all_chars p s'
  end.

Definition word (p : ascii → bool) (s : string) : Prop :=
  s ≠ "" ∧ all_chars p s = true.

(** ** Vocabulary of the further properties *)

(** The calls that leave the process: a statement, a hash comparison, a
    mail. *)
Definition is_external (e : effect) : bool :=
  match e with
  | Query _ | Compare _ _ | Email _ _ _ _ => true
  | ConsoleError _ _ | ConsoleLog _ => false
  end.

Definition external_calls (l : list effect) : nat :=
  length (List.filter is_external l).

(** The routes whose handler sends no statement that writes. *)
Definition read_only (r : route) : bool :=
  match r with
  | PostLogin | GetAuthCheck | GetProductos | GetSuscriptores | GetTest
  | PostContacto => true
  | _ => false
  end.

(** The status codes each registration writes, [res.status(c)],
    [res.sendStatus(c)] or the default 200 of [res.json]. *)
Definition statuses (r : route) : list Z :=
  match r with
  | PostLogin => [200; 400; 401; 500]
  | GetAuthCheck => [200; 401]
  | GetProductos => [200; 500]
  | PostProductos => [201; 400; 401; 500]
  | PutProductos => [200; 400; 401; 404; 500]
  | DeleteProductos => [204; 401; 500]
  | PostSuscribirse => [200; 201; 400; 500]
  | GetSuscriptores => [200; 401; 500]
  | DeleteSuscriptores => [200; 401; 404; 500]
  | GetTest => [200; 500]
  | PostContacto => [200; 400; 500]
  end.

(** A mail goes from the fixed sender to the fixed recipient under the
    fixed subject. *)
Definition fixed_mail (e : effect) : Prop :=
  match e with
  | Email sender recipient subject _ =>
      sender = "AVAR Joyas 💎 <onboarding@resend.dev>"
      ∧ recipient = "avarjoyas@gmail.com"
      ∧ subject = "💌 Nuevo mensaje desde el formulario de contacto"
  | _ => True
  end.

(** A handler that answers with the identity the middleware attached. *)
Definition probe (rq : Request) : M Response :=
  ret (json 200 (VObj [("ok", VBool true); ("user", req_user rq)])).

(** [a@b.c] with [a], [b], [c] non-empty, free of white space and [@]. *)
Definition email_shape (s : string) : Prop :=
  ∃ a b c, s = a +:+ "@" +:+ b +:+ "." +:+ c
           ∧ word not_space_at a ∧ word not_space_at b
           ∧ word not_space_at c.

(** Both tables empty, both sequences at their first value. *)
Definition empty_store : Store :=
  {| productos := []; productos_seq := 1;
     suscriptores := []; suscriptores_seq := 1 |}.

(** A sequence of requests served one after the other, each with its own
    environment. *)
Definition replay (P : Platform) (cfg : Config)
  (log : list (Env * route * Request)) (s : Store) : Store :=
  foldl (λ s '(env, r, rq), final (serve P cfg env r rq s)) s log.

(** The statements that read. *)
Definition is_select (q : statement) : bool :=
  match q with
  | SelectProductos | SelectSuscriptores _ _ _ | SelectNow => true
  | _ => false
  end.

(** * Properties *)

(** ** Sanity checks on concrete inputs *)

Example split_bearer : split_sp "Bearer abc.def" = ["Bearer"; "abc.def"].
Proof. reflexivity. Qed.

Example split_empty : split_sp "" = [""].
Proof. reflexivity. Qed.

Example split_runs : split_sp "a  b " = ["a"; ""; "b"; ""].
Proof. reflexivity. Qed.

Example email_usual : re_test email_re "ana@example.com" = true.
Proof. reflexivity. Qed.

Example email_dot_after_at : re_test email_re "a@.b.c" = true.
Proof. reflexivity. Qed.

Example email_trailing_dot : re_test email_re "a@b." = false.
Proof. reflexivity. Qed.

Example email_with_space : re_test email_re "a b@c.d" = false.
Proof. reflexivity. Qed.

Example email_two_ats : re_test email_re "a@b@c.d" = false.
Proof. reflexivity. Qed.

Example zero_falsy_not_nullish : falsy (num 0) = true ∧ nullish (num 0) = false.
Proof. by split. Qed.

Example login_hands_out_token :
  out (serve Toy.platform Toy.cfg Toy.env PostLogin
         (Toy.login_as "admin" "joyas") Toy.db)
  = Sent (json 200
            (VObj [("token",
                    VStr "1000.29800.admin.mac-s3cr3t-1000-29800-admin")])).
Proof. vm_compute. reflexivity. Qed.

Example token_good_until_expiry :
  jwt_verify Toy.platform "s3cr3t" 29699 Toy.admin_token
  = inr {| user := VStr "admin"; iat := 900; exp := 29700 |}
  ∧ jwt_verify Toy.platform "s3cr3t" 29700 Toy.admin_token = inl Expired
  ∧ jwt_verify Toy.platform "other" 1000 Toy.admin_token = inl BadSignature
  ∧ jwt_verify Toy.platform "s3cr3t" 1000 "garbage" = inl Malformed.
Proof. vm_compute. repeat split. Qed.

(** ** The regular expression matcher *)

Lemma append_nil_inv (a b : string) : a +:+ b = "" → a = "" ∧ b = "".
Proof. destruct a; [by simpl | discriminate]. Qed.

Lemma nullable_matches r : nullable r = true ↔ matches r "".
Proof.
  split.
  - induction r; simpl; try done.
    + intros _. constructor.
    + intros [H1 H2]%andb_prop. apply (MCat _ _ "" ""); auto.
    + intros [H | H]%orb_prop; [apply MAltL | apply MAltR]; auto.
    + intros _. constructor.
  - intros H. remember "" as s eqn:Hs. induction H; simpl; try done.
    + apply append_nil_inv in Hs as [-> ->]. by rewrite IHmatches1, IHmatches2.
    + by rewrite IHmatches.
    + rewrite IHmatches; [| done]. by rewrite orb_true_r.
Qed.

Lemma deriv_sound c r s : matches (deriv c r) s → matches r (String c s).
Proof.
  revert s. induction r as [| | p | r1 IH1 r2 IH2 | r1 IH1 r2 IH2 | r IH];
    simpl; intros s H.
  - inversion H.
  - inversion H.
  - destruct (p c) eqn:Hp; inversion H; subst. by constructor.
  - destruct (nullable r1) eqn:Hn.
    + inversion H as [| | | ? ? ? H' | ? ? ? H' | |]; subst.
      * inversion H' as [| | ? ? s1 s2 Ha Hb | | | |]; subst.
        apply (MCat _ _ (String c s1) s2); auto.
      * apply (MCat _ _ "" (String c s)); [by apply nullable_matches | auto].
    + inversion H as [| | ? ? s1 s2 Ha Hb | | | |]; subst.
      apply (MCat _ _ (String c s1) s2); auto.
  - inversion H; subst; [apply MAltL | apply MAltR]; auto.
  - inversion H as [| | ? ? s1 s2 Ha Hb | | | |]; subst.
    apply (MStarS _ (String c s1) s2); auto.
Qed.

Lemma deriv_complete c r s0 :
  matches r s0 → ∀ s, s0 = String c s → matches (deriv c r) s.
Proof.
  induction 1 as [| p d Hp | r1 r2 s1 s2 H1 IH1 H2 IH2 | r1 r2 s0 H IH
                  | r1 r2 s0 H IH | r | r s1 s2 H1 IH1 H2 IH2];
    intros s Hs; simpl.
  - discriminate.
  - injection Hs as -> <-. rewrite Hp. constructor.
  - destruct s1 as [| d s1'].
    + simpl in Hs. apply nullable_matches in H1. rewrite H1.
      apply MAltR. by apply IH2.
    + simpl in Hs. injection Hs as -> <-.
      destruct (nullable r1); [apply MAltL |]; constructor; auto.
  - apply MAltL. by apply IH.
  - apply MAltR. by apply IH.
  - discriminate.
  - destruct s1 as [| d s1'].
    + simpl in Hs. by apply IH2.
    + simpl in Hs. injection Hs as -> <-. constructor; auto.
Qed.

(** The derivative matcher decides [matches]. *)
Lemma re_test_matches r s : re_test r s = true ↔ matches r s.
Proof.
  revert r. induction s as [| c s IH]; intros r; simpl.
  - apply nullable_matches.
  - rewrite IH. split; [apply deriv_sound |].
    intros H. by apply (deriv_complete c r (String c s)).
Qed.

Lemma plus_class_word p s : matches (Plus (Cls p)) s ↔ word p s.
Proof.
  assert (Hstar : ∀ s, matches (Star (Cls p)) s ↔ all_chars p s = true).
  { intros s'. split.
    - intros H. remember (Star (Cls p)) as r eqn:Hr.
      induction H as [| | | | | | r' s1 s2 H1 _ H2 IH2]; try done.
      injection Hr as ->. inversion H1 as [| ? c Hc | | | | |]; subst.
      simpl. rewrite Hc. by apply IH2.
    - induction s' as [| c s' IH]; simpl; [constructor |].
      intros [Hc Hs]%andb_prop.
      apply (MStarS _ (String c "") s'); [by constructor | auto]. }
  unfold Plus, word. split.
  - intros H. inversion H as [| | ? ? s1 s2 H1 H2 | | | |]; subst.
    inversion H1 as [| ? c Hc | | | | |]; subst. simpl.
    apply Hstar in H2. split; [done |]. by rewrite Hc.
  - intros [Hne Hall]. destruct s as [| c s]; [done |].
    simpl in Hall. apply andb_prop in Hall as [Hc Hs].
    apply (MCat _ _ (String c "") s); [by constructor | by apply Hstar].
Qed.

(** The subscription route accepts exactly the strings [a@b.c] in which
    [a], [b] and [c] are non-empty and hold neither white space nor [@]. *)
Lemma email_re_shape s :
  re_test email_re s = true ↔
  ∃ a b c, s = a +:+ "@" +:+ b +:+ "." +:+ c
           ∧ word not_space_at a ∧ word not_space_at b
           ∧ word not_space_at c.
Proof.
  rewrite re_test_matches. unfold email_re. split.
  - intros H.
    inversion H as [| | ? ? a s1 Ha H1 | | | |]; subst.
    inversion H1 as [| | ? ? at_ s2 Hat H2 | | | |]; subst.
    inversion H2 as [| | ? ? b s3 Hb H3 | | | |]; subst.
    inversion H3 as [| | ? ? dot c Hdot Hc | | | |]; subst.
    inversion Hat as [| ? x Hx | | | | |]; subst.
    inversion Hdot as [| ? y Hy | | | | |]; subst.
    apply Ascii.eqb_eq in Hx, Hy. subst.
    exists a, b, c. split; [done |].
    by rewrite <- !plus_class_word.
  - intros (a & b & c & -> & Ha & Hb & Hc).
    apply plus_class_word in Ha, Hb, Hc.
    constructor; [done |].
    apply (MCat _ _ "@" (b +:+ "." +:+ c)); [by constructor |].
    constructor; [done |].
    apply (MCat _ _ "." c); [by constructor | done].
Qed.

(** ** The middleware *)

Section Gate.
Context (P : Platform) (cfg : Config) (env : Env).

Lemma requireAuth_missing next rq w :
  blank (bearer rq) = true →
  requireAuth P cfg env next rq w
  = (inr (json 401 (error_body "Token faltante")), w).
Proof. intros H. unfold requireAuth. by rewrite H. Qed.

Lemma requireAuth_invalid next rq w t e :
  bearer rq = Some t → t ≠ "" →
  jwt_verify P (JWT_SECRET cfg) (now env) t = inl e →
  requireAuth P cfg env next rq w
  = (inr (json 401 (error_body "Token inválido")), w).
Proof.
  intros Hb Ht Hv. unfold requireAuth. rewrite Hb. simpl.
  destruct (String.eqb_spec t ""); [done |]. by rewrite Hv.
Qed.

Lemma requireAuth_valid next rq w t c :
  bearer rq = Some t → t ≠ "" →
  jwt_verify P (JWT_SECRET cfg) (now env) t = inr c →
  requireAuth P cfg env next rq w = next (set_user (user c) rq) w.
Proof.
  intros Hb Ht Hv. unfold requireAuth. rewrite Hb. simpl.
  destruct (String.eqb_spec t ""); [done |]. by rewrite Hv.
Qed.

Lemma app_protected r :
  protected r = true →
  app P cfg env r = requireAuth P cfg env (handler P cfg env r).
Proof. by destruct r. Qed.

Lemma app_public r :
  protected r = false → app P cfg env r = handler P cfg env r.
Proof. by destruct r. Qed.

End Gate.

(** C1 (as amended).  On each of the five protected routes the handler
    runs exactly when the request carries a token that the verifier
    accepts; the identity claim of the token is attached to the request and
    is not compared with the configured administrator.  With no token, or
    with one the verifier refuses, the answer is 401, the store is untouched
    and no external call is made. *)
Theorem protected_routes_gated P cfg env r rq st :
  protected r = true →
  (blank (bearer rq) = true →
     serve P cfg env r rq st = rejected "Token faltante" st)
  ∧ (∀ t e, bearer rq = Some t → t ≠ "" →
       jwt_verify P (JWT_SECRET cfg) (now env) t = inl e →
       serve P cfg env r rq st = rejected "Token inválido" st)
  ∧ (∀ t c, bearer rq = Some t → t ≠ "" →
       jwt_verify P (JWT_SECRET cfg) (now env) t = inr c →
       serve P cfg env r rq st
       = run (handler P cfg env r (set_user (user c) rq)) st).
Proof.
  intros Hr. unfold serve, run. rewrite (app_protected _ _ _ _ Hr).
  split; [| split].
  - intros Hm. by rewrite requireAuth_missing.
  - intros t e Hb Ht Hv. by rewrite (requireAuth_invalid _ _ _ _ _ _ t e).
  - intros t c Hb Ht Hv. by rewrite (requireAuth_valid _ _ _ _ _ _ t c).
Qed.

Lemma protected_routes_gated_witness :
  serve Toy.platform Toy.cfg Toy.env DeleteProductos
    (Toy.delete_one Toy.admin_token) Toy.db
  = run (handler Toy.platform Toy.cfg Toy.env DeleteProductos
           (set_user (VStr "admin") (Toy.delete_one Toy.admin_token))) Toy.db.
Proof.
  refine (proj2 (proj2 (protected_routes_gated Toy.platform Toy.cfg Toy.env
            DeleteProductos (Toy.delete_one Toy.admin_token) Toy.db eq_refl))
            Toy.admin_token
            {| user := VStr "admin"; iat := 900; exp := 29700 |} _ _ _).
  - vm_compute. reflexivity.
  - vm_compute. discriminate.
  - vm_compute. reflexivity.
Defined.

(** C1 (as stated) fails: a token signed with the process secret whose
    identity is [root] passes the middleware while the configured
    administrator is [admin], and the deletion is carried out. *)
Lemma other_identity_passes_gate :
  ADMIN_USER Toy.cfg = Some "admin"
  ∧ jwt_verify Toy.platform (JWT_SECRET Toy.cfg) (now Toy.env) Toy.root_token
    = inr {| user := VStr "root"; iat := 900; exp := 29700 |}
  ∧ out (serve Toy.platform Toy.cfg Toy.env DeleteProductos
           (Toy.delete_one Toy.root_token) Toy.db) = Sent (sendStatus 204)
  ∧ productos (final (serve Toy.platform Toy.cfg Toy.env DeleteProductos
                        (Toy.delete_one Toy.root_token) Toy.db)) = [Toy.collar].
Proof. vm_compute. repeat split. Qed.

(** ** The authorization header *)

Lemma split_sp_cons s : ∃ w ws, split_sp s = w :: ws.
Proof.
  induction s as [| c s [w [ws IH]]]; simpl; [by eauto |].
  destruct (is_sp c); [by eauto |]. rewrite IH. by eauto.
Qed.

Lemma split_sp_word t : no_sp t = true → split_sp t = [t].
Proof.
  induction t as [| c t IH]; simpl; [done |].
  intros [Hc Ht]%andb_prop. destruct (is_sp c); [done |].
  by rewrite (IH Ht).
Qed.

Lemma split_sp_prefix a s :
  no_sp a = true →
  split_sp (a +:+ s)
  = match split_sp s with
    | w :: ws => (a +:+ w) :: ws
    | [] => [a]
    end.
Proof.
  destruct (split_sp_cons s) as [w [ws Hs]]. rewrite Hs.
  induction a as [| c a IH]; simpl; [done |].
  intros [Hc Ha]%andb_prop. destruct (is_sp c); [done |].
  by rewrite (IH Ha).
Qed.

Lemma second_word scheme t :
  no_sp scheme = true → no_sp t = true →
  split_sp (scheme +:+ " " +:+ t) !! 1%nat = Some t.
Proof.
  intros Hs Ht. rewrite (split_sp_prefix _ _ Hs).
  change (" " +:+ t) with (String " " t).
  cbn [split_sp is_sp]. change (Ascii.eqb " " " ") with true. cbv iota.
  by rewrite (split_sp_word _ Ht).
Qed.

Lemma bearer_scheme rq scheme t :
  no_sp scheme = true → no_sp t = true →
  authorization rq = Some (scheme +:+ " " +:+ t) →
  bearer rq = Some t.
Proof.
  intros Hs Ht Ha. unfold bearer. rewrite Ha. simpl.
  destruct (String.eqb_spec (scheme +:+ " " +:+ t) "") as [E | _].
  - destruct scheme; discriminate E.
  - by apply second_word.
Qed.

Lemma bearer_bare rq t :
  no_sp t = true → authorization rq = Some t → bearer rq = None.
Proof.
  intros Ht Ha. unfold bearer. rewrite Ha. simpl.
  destruct (String.eqb t ""); [done |]. by rewrite (split_sp_word _ Ht).
Qed.

(** C9.  The token is the second space-separated word of the header and
    the first word is never looked at: under any scheme word a valid token
    passes the middleware and the auth check, and the bare token, with no
    space before it, is answered 401 as a missing token by both. *)
Theorem scheme_word_not_validated P cfg env scheme t c rq next w :
  no_sp scheme = true → no_sp t = true → t ≠ "" →
  jwt_verify P (JWT_SECRET cfg) (now env) t = inr c →
  (authorization rq = Some (scheme +:+ " " +:+ t) →
     requireAuth P cfg env next rq w = next (set_user (user c) rq) w
     ∧ auth_check P cfg env rq w
       = (inr (json 200 (VObj [("ok", VBool true); ("user", user c)])), w))
  ∧ (authorization rq = Some t →
     requireAuth P cfg env next rq w
     = (inr (json 401 (error_body "Token faltante")), w)
     ∧ auth_check P cfg env rq w
       = (inr (json 401 (error_body "Token faltante")), w)).
Proof.
  intros Hs Ht Hne Hv. split; intros Ha.
  - pose proof (bearer_scheme _ _ _ Hs Ht Ha) as Hb. split.
    + by apply (requireAuth_valid _ _ _ _ _ _ t c).
    + unfold auth_check. rewrite Hb. simpl.
      destruct (String.eqb_spec t ""); [done |]. by rewrite Hv.
  - pose proof (bearer_bare _ _ Ht Ha) as Hb. split.
    + apply requireAuth_missing. by rewrite Hb.
    + unfold auth_check. by rewrite Hb.
Qed.

Lemma scheme_word_not_validated_witness :
  let w := {| store := Toy.db; trace := [] |} in
  let basic := Toy.request (Some ("Basic " +:+ Toy.admin_token)) "1" [] in
  let bare := Toy.request (Some Toy.admin_token) "1" [] in
  (requireAuth Toy.platform Toy.cfg Toy.env
     (delete_productos Toy.platform Toy.env) basic w
   = delete_productos Toy.platform Toy.env
       (set_user (VStr "admin") basic) w
   ∧ auth_check Toy.platform Toy.cfg Toy.env basic w
     = (inr (json 200 (VObj [("ok", VBool true); ("user", VStr "admin")])),
        w))
  ∧ (requireAuth Toy.platform Toy.cfg Toy.env
       (delete_productos Toy.platform Toy.env) bare w
     = (inr (json 401 (error_body "Token faltante")), w)
     ∧ auth_check Toy.platform Toy.cfg Toy.env bare w
       = (inr (json 401 (error_body "Token faltante")), w)).
Proof.
  intros w basic bare.
  assert (Hs : no_sp "Basic" = true) by reflexivity.
  assert (Ht : no_sp Toy.admin_token = true) by (vm_compute; reflexivity).
  assert (Hne : Toy.admin_token ≠ "") by (vm_compute; discriminate).
  assert (Hv : jwt_verify Toy.platform (JWT_SECRET Toy.cfg) (now Toy.env)
                 Toy.admin_token
               = inr {| user := VStr "admin"; iat := 900; exp := 29700 |})
    by (vm_compute; reflexivity).
  split.
  - exact (proj1 (scheme_word_not_validated Toy.platform Toy.cfg Toy.env
                    "Basic" Toy.admin_token _ basic
                    (delete_productos Toy.platform Toy.env) w Hs Ht Hne Hv)
             eq_refl).
  - exact (proj2 (scheme_word_not_validated Toy.platform Toy.cfg Toy.env
                    "Basic" Toy.admin_token _ bare
                    (delete_productos Toy.platform Toy.env) w Hs Ht Hne Hv)
             eq_refl).
Defined.

(** ** The token codec *)

Lemma jwt_verify_cases P secret t tok :
  match jwt_verify P secret t tok with
  | inl Malformed => jws_decode P tok = None
  | inl BadSignature =>
      ∃ j, jws_decode P tok = Some j
           ∧ jws_mac P secret (jws_claims j) ≠ jws_sig j
  | inl Expired =>
      ∃ j, jws_decode P tok = Some j
           ∧ jws_mac P secret (jws_claims j) = jws_sig j
           ∧ exp (jws_claims j) ≤ t
  | inr c =>
      ∃ j, jws_decode P tok = Some j ∧ c = jws_claims j
           ∧ jws_mac P secret (jws_claims j) = jws_sig j
           ∧ t < exp (jws_claims j)
  end.
Proof.
  unfold jwt_verify. destruct (jws_decode P tok) as [j |]; [| done].
  destruct (String.eqb_spec (jws_mac P secret (jws_claims j)) (jws_sig j));
    [| by eauto].
  destruct (Z.leb_spec (exp (jws_claims j)) t); by eauto 6.
Qed.

(** C5.  Verification fails exactly when the token is malformed, its
    signature is not the one the process secret gives, or the clock is at
    or past the encoded expiry; in every other case it returns the embedded
    claims.  The expiry a login encodes is the issuance time plus eight
    hours, and the middleware and the auth check answer 401 on a failure
    and hand on the identity of the claims on a success. *)
Theorem verify_fails_iff P cfg env tok rq next w :
  let secret := JWT_SECRET cfg in
  let t := now env in
  ((∃ e, jwt_verify P secret t tok = inl e) ↔
     jws_decode P tok = None
     ∨ ∃ j, jws_decode P tok = Some j
            ∧ (jws_mac P secret (jws_claims j) ≠ jws_sig j
               ∨ exp (jws_claims j) ≤ t))
  ∧ (∀ j, jws_decode P tok = Some j →
       jws_mac P secret (jws_claims j) = jws_sig j →
       t < exp (jws_claims j) →
       jwt_verify P secret t tok = inr (jws_claims j))
  ∧ (∀ t0 u, jwt_sign P secret t0 u
       = jws_encode P
           {| jws_claims := {| user := u; iat := t0; exp := t0 + 8 * 3600 |};
              jws_sig := jws_mac P secret
                           {| user := u; iat := t0; exp := t0 + 8 * 3600 |} |})
  ∧ (bearer rq = Some tok → tok ≠ "" →
       match jwt_verify P secret t tok with
       | inl _ =>
           requireAuth P cfg env next rq w
           = (inr (json 401 (error_body "Token inválido")), w)
           ∧ auth_check P cfg env rq w
             = (inr (json 401 (error_body "Token inválido")), w)
       | inr c =>
           requireAuth P cfg env next rq w = next (set_user (user c) rq) w
           ∧ auth_check P cfg env rq w
             = (inr (json 200 (VObj [("ok", VBool true); ("user", user c)])),
                w)
       end).
Proof.
  intros secret t. repeat split.
  - intros [e He]. pose proof (jwt_verify_cases P secret t tok) as H.
    rewrite He in H. destruct e.
    + by left.
    + destruct H as [j [Hj Hm]]. right. by eauto.
    + destruct H as [j [Hj [Hm Hx]]]. right. by eauto.
  - pose proof (jwt_verify_cases P secret t tok) as H.
    destruct (jwt_verify P secret t tok) as [e | c]; [by eauto |].
    destruct H as [j [Hj [Hc [Hm Hx]]]].
    intros [Hn | [j' [Hj' [Hm' | Hx']]]].
    + congruence.
    + rewrite Hj in Hj'. by simplify_eq.
    + rewrite Hj in Hj'. simplify_eq. lia.
  - intros j Hj Hm Hx. unfold jwt_verify. rewrite Hj.
    destruct (String.eqb_spec (jws_mac P secret (jws_claims j)) (jws_sig j));
      [| done].
    destruct (Z.leb_spec (exp (jws_claims j)) t); [lia | done].
  - intros Hb Hne. destruct (jwt_verify P secret t tok) as [e | c] eqn:Hv.
    + split; [by apply (requireAuth_invalid _ _ _ _ _ _ tok e) |].
      unfold auth_check. rewrite Hb. simpl.
      destruct (String.eqb_spec tok ""); [done |].
      fold secret t. by rewrite Hv.
    + split; [by apply (requireAuth_valid _ _ _ _ _ _ tok c) |].
      unfold auth_check. rewrite Hb. simpl.
      destruct (String.eqb_spec tok ""); [done |].
      fold secret t. by rewrite Hv.
Qed.

(** At the very second of expiry, eight hours after a login at 900 s, the
    administrator's token is refused. *)
Lemma verify_fails_iff_witness :
  jwt_verify Toy.platform "s3cr3t" (900 + 8 * 3600 - 1) Toy.admin_token
  = inr {| user := VStr "admin"; iat := 900; exp := 29700 |}
  ∧ ∃ e, jwt_verify Toy.platform "s3cr3t" (900 + 8 * 3600) Toy.admin_token
         = inl e.
Proof.
  split.
  - refine (proj1 (proj2 (verify_fails_iff Toy.platform Toy.cfg
              {| now := 900 + 8 * 3600 - 1; db_fault := None;
                 mail_fault := None |}
              Toy.admin_token (Toy.delete_one Toy.admin_token)
              (delete_productos Toy.platform Toy.env)
              {| store := Toy.db; trace := [] |}))
              {| jws_claims := {| user := VStr "admin"; iat := 900;
                                  exp := 29700 |};
                 jws_sig := "mac-s3cr3t-900-29700-admin" |} _ _ _).
    + vm_compute. reflexivity.
    + vm_compute. reflexivity.
    + vm_compute. reflexivity.
  - refine (proj2 (proj1 (verify_fails_iff Toy.platform Toy.cfg
              {| now := 900 + 8 * 3600; db_fault := None;
                 mail_fault := None |}
              Toy.admin_token (Toy.delete_one Toy.admin_token)
              (delete_productos Toy.platform Toy.env)
              {| store := Toy.db; trace := [] |})) _).
    right.
    exists {| jws_claims := {| user := VStr "admin"; iat := 900;
                               exp := 29700 |};
              jws_sig := "mac-s3cr3t-900-29700-admin" |}.
    split; [vm_compute; reflexivity |]. right. vm_compute. discriminate.
Defined.

(** ** Login *)

(** C2 (as amended).  With both credentials present and the administrator
    configured, an unknown username is answered before any hash comparison
    is made; the comparison is made, once, exactly when the username is the
    administrator's.  The response to an unknown username and the response
    to the right username with a wrong password are the same. *)
Theorem login_compares_only_known_user P cfg env rq st a h :
  let u := field "user" (body rq) in
  let pw := field "password" (body rq) in
  truthy u = true → truthy pw = true →
  ADMIN_USER cfg = Some a → a ≠ "" →
  ADMIN_PASS_HASH cfg = Some h → h ≠ "" →
  (u ≠ VStr a →
     serve P cfg env PostLogin rq st
     = {| out := Sent bad_credentials; final := st; effects := [] |})
  ∧ (u = VStr a →
     effects (serve P cfg env PostLogin rq st) = [Compare pw h]
     ∧ (bcrypt_compare P pw h = Some false →
        out (serve P cfg env PostLogin rq st) = Sent bad_credentials)).
Proof.
  intros u pw Hu Hpw Ha Hane Hh Hhne.
  unfold serve, run, app, login, falsy. fold u pw.
  rewrite Hu, Hpw, Ha, Hh. simpl.
  destruct (String.eqb_spec a ""); [done |].
  destruct (String.eqb_spec h ""); [done |]. simpl.
  split.
  - intros Hne. destruct u as [| | | | s | |]; simpl; try done.
    destruct (String.eqb_spec s a); [congruence | done].
  - intros ->. simpl. rewrite String.eqb_refl. simpl.
    unfold bind, compare, bind, emit, ret, throw. simpl.
    destruct (bcrypt_compare P pw h) as [[|] |]; simpl; by split.
Qed.

Lemma login_compares_only_known_user_witness :
  out (serve Toy.platform Toy.cfg Toy.env PostLogin
         (Toy.login_as "admin" "perlas") Toy.db)
  = Sent bad_credentials
  ∧ serve Toy.platform Toy.cfg Toy.env PostLogin
      (Toy.login_as "intruso" "perlas") Toy.db
    = {| out := Sent bad_credentials; final := Toy.db; effects := [] |}.
Proof.
  assert (Ha : "admin" ≠ "") by discriminate.
  assert (Hh : "$2b$joyas" ≠ "") by discriminate.
  split.
  - refine (proj2 (proj2 (login_compares_only_known_user Toy.platform Toy.cfg
              Toy.env (Toy.login_as "admin" "perlas") Toy.db "admin"
              "$2b$joyas" eq_refl eq_refl eq_refl Ha eq_refl Hh) _) _);
      vm_compute; reflexivity.
  - refine (proj1 (login_compares_only_known_user Toy.platform Toy.cfg
              Toy.env (Toy.login_as "intruso" "perlas") Toy.db "admin"
              "$2b$joyas" eq_refl eq_refl eq_refl Ha eq_refl Hh) _).
    vm_compute. discriminate.
Defined.

(** C2 (as stated) fails: for a username that is not the administrator's,
    with both credentials present and the administrator configured, the
    handler answers without having made a hash comparison; the request
    leaves no external call behind. *)
Lemma unknown_user_skips_compare :
  falsy (field "user" (body (Toy.login_as "intruso" "joyas"))) = false
  ∧ falsy (field "password" (body (Toy.login_as "intruso" "joyas"))) = false
  ∧ blank (ADMIN_USER Toy.cfg) = false
  ∧ blank (ADMIN_PASS_HASH Toy.cfg) = false
  ∧ bcrypt_compare Toy.platform (VStr "joyas") "$2b$joyas" = Some true
  ∧ serve Toy.platform Toy.cfg Toy.env PostLogin
      (Toy.login_as "intruso" "joyas") Toy.db
    = {| out := Sent bad_credentials; final := Toy.db; effects := [] |}.
Proof. vm_compute. repeat split. Qed.

(** ** Store calls *)

Section Calls.
Context (P : Platform) (env : Env).

Lemma pool_query_ok q w r s' :
  db_fault env = None →
  exec P (now env) q (store w) = inr (r, s') →
  pool_query P env q w
  = (inr r, {| store := s'; trace := trace w ++ [Query q] |}).
Proof.
  intros Hf He. unfold pool_query, bind, emit. rewrite Hf. simpl.
  by rewrite He.
Qed.

Lemma pool_query_fault q w m :
  db_fault env = Some m →
  pool_query P env q w
  = (inl m, {| store := store w; trace := trace w ++ [Query q] |}).
Proof. intros Hf. unfold pool_query, bind, emit, throw. by rewrite Hf. Qed.

Lemma pool_query_reject q w m :
  db_fault env = None →
  exec P (now env) q (store w) = inl m →
  pool_query P env q w
  = (inl m, {| store := store w; trace := trace w ++ [Query q] |}).
Proof.
  intros Hf He. unfold pool_query, bind, emit. rewrite Hf. simpl.
  by rewrite He.
Qed.

End Calls.

(** ** Deletions *)

(** Deleting a subscriber whose id is in no row: 404, nothing removed. *)
Lemma delete_suscriptores_unknown_id P env rq st k :
  db_fault env = None →
  pg_int P (VStr (params_id rq)) = Some k →
  existsb (sus_has_id k) (suscriptores st) = false →
  run (delete_suscriptores P env rq) st
  = {| out := Sent (json 404 (error_body "Suscriptor no encontrado"));
       final := st;
       effects := [Query (DeleteSuscriptor (VStr (params_id rq)))] |}.
Proof.
  intros Hf Hk Hno. unfold run, delete_suscriptores, try_catch, bind.
  assert (Hhit : filter (λ r, sus_has_id k r = true) (suscriptores st) = []).
  { induction (suscriptores st) as [| x l IH]; [done |].
    simpl in Hno. apply orb_false_elim in Hno as [Hx Hl].
    rewrite filter_cons. destruct (decide (sus_has_id k x = true)); [congruence |].
    by apply IH. }
  assert (Hkeep : filter (λ r, sus_has_id k r = false) (suscriptores st)
                  = suscriptores st).
  { induction (suscriptores st) as [| x l IH]; [done |].
    simpl in Hno. apply orb_false_elim in Hno as [Hx Hl].
    rewrite filter_cons. destruct (decide (sus_has_id k x = false)); [| congruence].
    f_equal. apply IH; [done |].
    rewrite filter_cons in Hhit.
    destruct (decide (sus_has_id k x = true)); [congruence | done]. }
  erewrite pool_query_ok; [| done |].
  2:{ simpl. rewrite Hk, Hhit, Hkeep. reflexivity. }
  simpl. by destruct st.
Qed.

(** Deleting a subscriber that exists: 200 with a message object. *)
Lemma delete_suscriptores_known_id P env rq st k :
  db_fault env = None →
  pg_int P (VStr (params_id rq)) = Some k →
  existsb (sus_has_id k) (suscriptores st) = true →
  out (run (delete_suscriptores P env rq) st)
  = Sent (json 200
            (VObj [("message", VStr "Suscriptor eliminado correctamente ✅")])).
Proof.
  intros Hf Hk Hin. unfold run, delete_suscriptores, try_catch, bind.
  erewrite pool_query_ok; [| done |].
  2:{ simpl. rewrite Hk. reflexivity. }
  simpl.
  destruct (filter (λ r, sus_has_id k r = true) (suscriptores st))
    as [| x l] eqn:Hhit; [| done].
  exfalso. apply existsb_exists in Hin as [x [Hx Hid]].
  assert (x ∈ filter (λ r, sus_has_id k r = true) (suscriptores st)) as Hel.
  { apply list_elem_of_filter. split; [done |]. by apply list_elem_of_In. }
  rewrite Hhit in Hel. by apply not_elem_of_nil in Hel.
Qed.

(** Deleting a catalog item: 204 with an empty body whenever the store
    call returns, whether or not a row had the id. *)
Lemma delete_productos_always_204 P env rq st k :
  db_fault env = None →
  pg_int P (VStr (params_id rq)) = Some k →
  out (run (delete_productos P env rq) st) = Sent (sendStatus 204).
Proof.
  intros Hf Hk. unfold run, delete_productos, try_catch, bind.
  erewrite pool_query_ok; [| done |].
  2:{ simpl. rewrite Hk. reflexivity. }
  done.
Qed.

(** C3.  An authenticated deletion of catalog item 999, an id no row has:
    the store reports no row affected and the route still answers 204,
    where the claim has 404; the same request on the subscriber route is
    answered 404. *)
Theorem delete_productos_unknown_id_is_204 :
  existsb (has_id 999) (productos Toy.db) = false
  ∧ serve Toy.platform Toy.cfg Toy.env DeleteProductos Toy.delete_999 Toy.db
    = {| out := Sent (sendStatus 204); final := Toy.db;
         effects := [Query (DeleteProducto (VStr "999"))] |}
  ∧ serve Toy.platform Toy.cfg Toy.env DeleteSuscriptores Toy.delete_999
      Toy.db
    = {| out := Sent (json 404 (error_body "Suscriptor no encontrado"));
         final := Toy.db;
         effects := [Query (DeleteSuscriptor (VStr "999"))] |}.
Proof. vm_compute. repeat split. Qed.

(** ** The contact form *)

Lemma empty_or_absent_falsy v : empty_or_absent v → falsy v = true.
Proof. by intros [-> | [-> | ->]]. Qed.

(** C8.  When one of name, email and message is empty or blank, the
    contact route answers 400 and the mail relay is not called: the trace
    of external calls is empty. *)
Theorem contacto_validation_blocks_relay P cfg env rq st :
  empty_or_absent (field "nombre" (body rq))
  ∨ empty_or_absent (field "email" (body rq))
  ∨ empty_or_absent (field "mensaje" (body rq)) →
  serve P cfg env PostContacto rq st
  = {| out := Sent (json 400
                      (error_body "Todos los campos son obligatorios."));
       final := st; effects := [] |}.
Proof.
  intros H. unfold serve, run, app, contacto.
  assert (falsy (field "nombre" (body rq)) || falsy (field "email" (body rq))
          || falsy (field "mensaje" (body rq)) = true) as ->; [| done].
  destruct H as [H | [H | H]]; apply empty_or_absent_falsy in H; rewrite H;
    by rewrite ?orb_true_r.
Qed.

Lemma contacto_validation_blocks_relay_witness :
  serve Toy.platform Toy.cfg Toy.env PostContacto
    (Toy.contact_form "Ana" "" "Hola") Toy.db
  = {| out := Sent (json 400
                      (error_body "Todos los campos son obligatorios."));
       final := Toy.db; effects := [] |}.
Proof.
  apply contacto_validation_blocks_relay.
  right. left. right. right. vm_compute. reflexivity.
Defined.

(** ** Creating a catalog item *)

(** C7.  An authenticated creation whose name and category are non-empty
    strings and whose price and stock are the number zero passes the field
    validation and, the store call returning, is answered 201 with the row
    created: zero counts as a value that is present. *)
Theorem post_productos_accepts_zero P cfg env rq st t c n cat qp qs :
  bearer rq = Some t → t ≠ "" →
  jwt_verify P (JWT_SECRET cfg) (now env) t = inr c →
  field "nombre" (body rq) = VStr n → n ≠ "" →
  field "categoria" (body rq) = VStr cat → cat ≠ "" →
  field "precio" (body rq) = VNum qp → Qeq qp 0 →
  field "stock" (body rq) = VNum qs → Qeq qs 0 →
  db_fault env = None →
  let imagen := field "imagen" (body rq) in
  let nueva := field "nueva_coleccion" (body rq) in
  let p := {| p_id := productos_seq st; p_nombre := VStr n;
              p_precio := VNum qp; p_categoria := VStr cat;
              p_stock := VNum qs; p_imagen := pg_param imagen;
              p_nueva_coleccion := pg_param nueva |} in
  missing_fields (VStr n) (VNum qp) (VStr cat) (VNum qs) = false
  ∧ serve P cfg env PostProductos rq st
    = {| out := Sent (json 201
                        (VObj [("mensaje",
                                VStr "✅ Producto agregado correctamente");
                               ("producto", producto_row p)]));
         final := with_productos (productos st ++ [p])
                    (productos_seq st + 1) st;
         effects := [Query (InsertProducto (VStr n) (VNum qp) (VStr cat)
                              (VNum qs) imagen nueva)] |}.
Proof.
  intros Hb Ht Hv Hn Hne Hc Hce Hp _ Hs _ Hf imagen nueva p.
  assert (Hm : missing_fields (VStr n) (VNum qp) (VStr cat) (VNum qs)
               = false).
  { unfold missing_fields, falsy. simpl.
    destruct (String.eqb_spec n ""); [done |].
    by destruct (String.eqb_spec cat ""). }
  split; [done |].
  unfold serve, run, app.
  rewrite (requireAuth_valid _ _ _ _ _ _ t c Hb Ht Hv).
  unfold post_productos. simpl. rewrite Hn, Hc, Hp, Hs, Hm.
  unfold try_catch, bind.
  erewrite pool_query_ok; [| done | reflexivity]. done.
Qed.

Lemma post_productos_accepts_zero_witness :
  out (serve Toy.platform Toy.cfg Toy.env PostProductos Toy.free_sample
         Toy.db)
  = Sent (json 201
            (VObj [("mensaje", VStr "✅ Producto agregado correctamente");
                   ("producto",
                    producto_row
                      {| p_id := 3; p_nombre := VStr "Muestra";
                         p_precio := num 0; p_categoria := VStr "regalos";
                         p_stock := num 0; p_imagen := VNull;
                         p_nueva_coleccion := VNull |})])).
Proof.
  assert (Hn : "Muestra" ≠ "") by discriminate.
  assert (Hc : "regalos" ≠ "") by discriminate.
  assert (Ht : Toy.admin_token ≠ "") by (vm_compute; discriminate).
  assert (Hv : jwt_verify Toy.platform (JWT_SECRET Toy.cfg) (now Toy.env)
                 Toy.admin_token
               = inr {| user := VStr "admin"; iat := 900; exp := 29700 |})
    by (vm_compute; reflexivity).
  assert (Hb : bearer Toy.free_sample = Some Toy.admin_token)
    by (vm_compute; reflexivity).
  assert (Hz : Qeq (inject_Z 0) 0) by reflexivity.
  exact (f_equal out
           (proj2 (post_productos_accepts_zero Toy.platform Toy.cfg Toy.env
                     Toy.free_sample Toy.db Toy.admin_token _ "Muestra"
                     "regalos" (inject_Z 0) (inject_Z 0)
                     Hb Ht Hv eq_refl Hn eq_refl Hc eq_refl Hz eq_refl Hz
                     eq_refl))).
Defined.

(** ** Subscribing *)

Lemma filter_existsb_false {A} (f : A → bool) (l : list A) :
  existsb f l = false → filter (λ x, f x = true) l = [].
Proof.
  induction l as [| x l IH]; [done |]. simpl.
  intros [Hx Hl]%orb_false_elim. rewrite filter_cons.
  destruct (decide (f x = true)); [congruence | by apply IH].
Qed.

(** C6.  The same valid email submitted twice, the first time while no
    row has it and with the store answering both times: the first call is
    answered 201, the second 200 with the already-subscribed message, and
    afterwards exactly one row has that email. *)
Theorem suscribirse_twice_one_row P cfg env1 env2 rq st :
  let email := field "email" (body rq) in
  let e := param_text P email in
  truthy email = true →
  re_test email_re (text P email) = true →
  db_fault env1 = None → db_fault env2 = None →
  existsb (has_email e) (suscriptores st) = false →
  let r1 := serve P cfg env1 PostSuscribirse rq st in
  let r2 := serve P cfg env2 PostSuscribirse rq (final r1) in
  out r1 = Sent (json 201
                   (VObj [("message", VStr "¡Gracias por suscribirte! 💌")]))
  ∧ out r2 = Sent (json 200 (VObj [("message", VStr "Ya estás suscrito 🥰")]))
  ∧ length (filter (λ s, has_email e s = true) (suscriptores (final r2)))
    = 1%nat.
Proof.
  intros email e Hty Hre Hf1 Hf2 Hnew.
  set (row := {| s_id := suscriptores_seq st; s_email := e;
                 s_fecha := now env1 |}).
  set (st1 := with_suscriptores (suscriptores st ++ [row])
                (suscriptores_seq st + 1) st).
  assert (H1 : serve P cfg env1 PostSuscribirse rq st
               = {| out := Sent (json 201
                      (VObj [("message",
                              VStr "¡Gracias por suscribirte! 💌")]));
                    final := st1;
                    effects := [Query (InsertSuscriptor email)] |}).
  { unfold serve, run, app, suscribirse, falsy. fold email.
    rewrite Hty, Hre. simpl. unfold try_catch, bind.
    erewrite pool_query_ok; [| done |].
    2:{ simpl. fold e. rewrite Hnew. reflexivity. }
    done. }
  assert (Hdup : existsb (has_email e) (suscriptores st1) = true).
  { simpl. rewrite existsb_app. simpl. unfold has_email at 2. simpl.
    rewrite String.eqb_refl. by rewrite orb_true_r. }
  assert (H2 : serve P cfg env2 PostSuscribirse rq st1
               = {| out := Sent (json 200
                      (VObj [("message", VStr "Ya estás suscrito 🥰")]));
                    final := st1;
                    effects := [Query (InsertSuscriptor email)] |}).
  { unfold serve, run, app, suscribirse, falsy. fold email.
    rewrite Hty, Hre. simpl. unfold try_catch, bind.
    erewrite pool_query_ok; [| done |].
    2:{ unfold exec. fold e. cbn [store]. rewrite Hdup. reflexivity. }
    done. }
  intros r1 r2. subst r1 r2. rewrite H1. simpl. rewrite H2. simpl.
  repeat split.
  rewrite filter_app, (filter_existsb_false _ _ Hnew). simpl.
  rewrite filter_cons. unfold has_email at 1. simpl.
  destruct (decide ((e =? e)%string = true)) as [_ | Hx]; [done |].
  by rewrite String.eqb_refl in Hx.
Qed.

Lemma suscribirse_twice_one_row_witness :
  out (serve Toy.platform Toy.cfg Toy.env PostSuscribirse
         (Toy.subscribe "bea@example.com") Toy.db)
  = Sent (json 201 (VObj [("message", VStr "¡Gracias por suscribirte! 💌")]))
  ∧ out (serve Toy.platform Toy.cfg Toy.later PostSuscribirse
           (Toy.subscribe "bea@example.com")
           (final (serve Toy.platform Toy.cfg Toy.env PostSuscribirse
                     (Toy.subscribe "bea@example.com") Toy.db)))
    = Sent (json 200 (VObj [("message", VStr "Ya estás suscrito 🥰")]))
  ∧ length (filter (λ s, has_email "bea@example.com" s = true)
              (suscriptores
                 (final (serve Toy.platform Toy.cfg Toy.later PostSuscribirse
                           (Toy.subscribe "bea@example.com")
                           (final (serve Toy.platform Toy.cfg Toy.env
                                     PostSuscribirse
                                     (Toy.subscribe "bea@example.com")
                                     Toy.db))))))
    = 1%nat.
Proof.
  refine (suscribirse_twice_one_row Toy.platform Toy.cfg Toy.env Toy.later
            (Toy.subscribe "bea@example.com") Toy.db _ _ _ _ _);
    vm_compute; reflexivity.
Defined.

(** ** Failures of the datastore and of the mail relay *)

Ltac unfold_routes :=
  unfold serve, run, app, requireAuth, login, auth_check, get_productos,
    post_productos, put_productos, delete_productos, suscribirse,
    get_suscriptores, delete_suscriptores, get_test, contacto,
    try_catch, bind, pool_query, compare, emails_send, emit, throw, ret.

Ltac by_cases :=
  repeat (simpl in *; try done;
          match goal with
          | |- context [blank ?x] => destruct (blank x) eqn:?
          | |- context [jwt_verify ?a ?b ?c ?d] =>
              destruct (jwt_verify a b c d) eqn:?
          | |- context [missing_fields ?a ?b ?c ?d] =>
              destruct (missing_fields a b c d) eqn:?
          | |- context [falsy ?x] => destruct (falsy x) eqn:?
          | |- context [strict_neq_str ?x ?y] =>
              destruct (strict_neq_str x y) eqn:?
          | |- context [bcrypt_compare ?p ?x ?y] =>
              destruct (bcrypt_compare p x y) as [[|] |] eqn:?
          | |- context [re_test ?r ?x] => destruct (re_test r x) eqn:?
          end).

(** The response does not depend on the message of the store's error, on
    any route but the probe and the contact form. *)
Lemma out_ignores_fault_message P cfg r rq st env1 env2 m1 m2 :
  r ≠ GetTest → r ≠ PostContacto →
  now env1 = now env2 →
  db_fault env1 = Some m1 → db_fault env2 = Some m2 →
  out (serve P cfg env1 r rq st) = out (serve P cfg env2 r rq st).
Proof.
  intros Ht Hc Hn H1 H2.
  destruct env1 as [t1 f1 g1], env2 as [t2 f2 g2]. simpl in *. subst.
  destruct r; try done; unfold_routes; by_cases.
Qed.

(** On those routes a failed store call is answered 500 with an error
    object that holds one constant message. *)
Lemma fault_is_generic_500 P cfg r rq st env m :
  r ≠ GetTest → r ≠ PostContacto →
  db_fault env = Some m →
  existsb is_query (effects (serve P cfg env r rq st)) = true →
  ∃ g, out (serve P cfg env r rq st) = Sent (json 500 (error_body g)).
Proof.
  intros Ht Hc Hf.
  destruct env as [t f g]. simpl in *. subst.
  destruct r; try done; unfold_routes; by_cases; eauto.
Qed.

(** C4 (as amended).  When the store call fails, the response of every
    route other than the connectivity probe and the contact form is a 500
    whose body is a constant error message, the same whatever the error
    was.  There are two exceptions: the contact form echoes the mail
    provider's message in [detalle], and the probe [GET /api/test] echoes
    the store's message in [error]. *)
Theorem failure_detail_hidden_except_two P cfg rq st env m :
  db_fault env = Some m →
  (∀ r env' m', r ≠ GetTest → r ≠ PostContacto →
     now env' = now env → db_fault env' = Some m' →
     out (serve P cfg env r rq st) = out (serve P cfg env' r rq st))
  ∧ (∀ r, r ≠ GetTest → r ≠ PostContacto →
     existsb is_query (effects (serve P cfg env r rq st)) = true →
     ∃ g, out (serve P cfg env r rq st) = Sent (json 500 (error_body g)))
  ∧ out (serve P cfg env GetTest rq st)
    = Sent (json 500 (VObj [("ok", VBool false); ("error", VStr m)]))
  ∧ (∀ d, mail_fault env = Some d →
     truthy (field "nombre" (body rq)) = true →
     truthy (field "email" (body rq)) = true →
     truthy (field "mensaje" (body rq)) = true →
     out (serve P cfg env PostContacto rq st)
     = Sent (json 500
               (VObj [("error",
                       VStr "No se pudo enviar el mensaje. Intenta más tarde.");
                      ("detalle", VStr d)]))).
Proof.
  intros Hf. split; [| split; [| split]].
  - intros r env' m' Ht Hc Hn Hf'.
    by apply (out_ignores_fault_message _ _ _ _ _ _ _ m m').
  - intros r Ht Hc. by apply (fault_is_generic_500 _ _ _ _ _ _ m).
  - unfold_routes. by rewrite Hf.
  - intros d Hd Hn He Hm. unfold_routes. unfold falsy.
    by rewrite Hn, He, Hm, Hd.
Qed.

Lemma failure_detail_hidden_except_two_witness :
  out (serve Toy.platform Toy.cfg Toy.down GetProductos
         (Toy.contact_form "Ana" "ana@example.com" "Hola") Toy.db)
  = out (serve Toy.platform Toy.cfg Toy.busy GetProductos
           (Toy.contact_form "Ana" "ana@example.com" "Hola") Toy.db)
  ∧ out (serve Toy.platform Toy.cfg Toy.down PostContacto
           (Toy.contact_form "Ana" "ana@example.com" "Hola") Toy.db)
    = Sent (json 500
              (VObj [("error",
                      VStr "No se pudo enviar el mensaje. Intenta más tarde.");
                     ("detalle", VStr "API key is invalid")])).
Proof.
  pose proof (failure_detail_hidden_except_two Toy.platform Toy.cfg
                (Toy.contact_form "Ana" "ana@example.com" "Hola") Toy.db
                Toy.down "ECONNREFUSED 10.0.0.7:5432" eq_refl)
    as [H1 [_ [_ H4]]].
  split.
  - apply (H1 GetProductos Toy.busy "too many connections"); done.
  - apply (H4 "API key is invalid"); reflexivity.
Defined.

(** C4 (as stated) fails: the contact form is not the only route that
    echoes the error.  With the store down, [GET /api/test] sends the
    store's own message to the client. *)
Lemma test_route_echoes_store_error :
  GetTest ≠ PostContacto
  ∧ db_fault Toy.down = Some "ECONNREFUSED 10.0.0.7:5432"
  ∧ out (serve Toy.platform Toy.cfg Toy.down GetTest Toy.plain Toy.db)
    = Sent (json 500 (VObj [("ok", VBool false);
                            ("error", VStr "ECONNREFUSED 10.0.0.7:5432")])).
Proof. split; [discriminate | vm_compute; by split]. Qed.

(** ** The store invariant *)

Lemma NoDup_fmap_filter {A B} (g : A → B) (f : A → Prop)
  `{∀ x, Decision (f x)} (l : list A) :
  NoDup (g <$> l) → NoDup (g <$> filter f l).
Proof.
  induction l as [| a l IH]; [done |].
  rewrite fmap_cons, NoDup_cons. intros [Hni Hnd].
  rewrite filter_cons. destruct (decide (f a)); [| by apply IH].
  rewrite fmap_cons, NoDup_cons. split; [| by apply IH].
  intros [q [Hq Hin]]%list_elem_of_fmap. apply Hni.
  apply list_elem_of_fmap. exists q. split; [done |].
  by apply list_elem_of_filter in Hin as [_ Hin].
Qed.

Lemma Forall_filter_keep {A} (Q f : A → Prop) `{∀ x, Decision (f x)}
  (l : list A) :
  Forall Q l → Forall Q (filter f l).
Proof.
  rewrite !Forall_forall. intros HQ x [_ Hx]%list_elem_of_filter.
  by apply HQ.
Qed.

Lemma existsb_has_email e l :
  existsb (has_email e) l = true ↔ e ∈ s_email <$> l.
Proof.
  rewrite existsb_exists, list_elem_of_fmap. unfold has_email. split.
  - intros [x [Hin Hx]]. exists x. apply String.eqb_eq in Hx.
    split; [done |]. by apply list_elem_of_In.
  - intros [x [-> Hin]]. exists x. split; [by apply list_elem_of_In |].
    apply String.eqb_refl.
Qed.

Lemma exec_store_ok P t q s r s' :
  store_ok s → exec P t q s = inr (r, s') → store_ok s'.
Proof.
  intros (Hnd & Hlt & Hem) He. destruct q; simpl in He.
  - by simplify_eq.
  - simplify_eq. split; [| split]; simpl; [| | done].
    + rewrite fmap_app, NoDup_app. split; [done |]. split.
      * intros k [q [-> Hq]]%list_elem_of_fmap Hk. simpl in Hk.
        apply list_elem_of_singleton in Hk.
        rewrite Forall_forall in Hlt. specialize (Hlt q Hq). lia.
      * apply NoDup_singleton.
    + rewrite Forall_app. split.
      * eapply Forall_impl; [exact Hlt |]. simpl. intros. lia.
      * constructor; [simpl; lia | constructor].
  - destruct (pg_int P id) as [k |]; [| done]. simplify_eq.
    assert (Hids : ∀ l : list producto,
      p_id <$> ((λ p, if has_id k p
                      then set_columns nombre precio categoria stock imagen
                             nueva p
                      else p) <$> l) = p_id <$> l).
    { intros l. rewrite <- list_fmap_compose. apply list_fmap_ext.
      intros i p _. simpl. by destruct (has_id k p). }
    split; [| split]; simpl; [| | done].
    + by rewrite Hids.
    + rewrite Forall_fmap. eapply Forall_impl; [exact Hlt |].
      intros p Hp. simpl. by destruct (has_id k p).
  - destruct (pg_int P id) as [k |]; [| done]. simplify_eq.
    split; [| split]; simpl; [| | done].
    + by apply NoDup_fmap_filter.
    + by apply Forall_filter_keep.
  - destruct (existsb _ _) eqn:Hex; simplify_eq; [done |].
    split; [| split]; simpl; [done | done |].
    rewrite fmap_app, NoDup_app. split; [done |]. split.
    + intros e He He'. simpl in He'. apply list_elem_of_singleton in He'.
      subst e. apply existsb_has_email in He. congruence.
    + apply NoDup_singleton.
  - destruct (pg_int P limit), (pg_int P offset); try done.
    destruct (_ || _); by simplify_eq.
  - destruct (pg_int P id) as [k |]; [| done]. simplify_eq.
    split; [| split]; simpl; [done | done |].
    by apply NoDup_fmap_filter.
  - by simplify_eq.
Qed.

Section Keeps.
Context (P : Platform) (cfg : Config) (env : Env).

Lemma keeps_ret {A} (a : A) : keeps (ret a).
Proof. by intros w. Qed.

Lemma keeps_throw {A} e : keeps (@throw A e).
Proof. by intros w. Qed.

Lemma keeps_emit e : keeps (emit e).
Proof. by intros w. Qed.

Lemma keeps_bind {A B} (m : M A) (k : A → M B) :
  keeps m → (∀ a, keeps (k a)) → keeps (bind m k).
Proof.
  intros Hm Hk w Hw. unfold bind. specialize (Hm w Hw).
  destruct (m w) as [[e | a] w']; [done |]. by apply Hk.
Qed.

Lemma keeps_try_catch {A} (m : M A) (h : string → M A) :
  keeps m → (∀ e, keeps (h e)) → keeps (try_catch m h).
Proof.
  intros Hm Hh w Hw. unfold try_catch. specialize (Hm w Hw).
  destruct (m w) as [[e | a] w']; [by apply Hh | done].
Qed.

Lemma keeps_pool_query q : keeps (pool_query P env q).
Proof.
  intros w Hw. unfold pool_query, bind, emit, throw. simpl.
  destruct (db_fault env); [done |]. simpl.
  destruct (exec P (now env) q (store w)) as [m | [r s']] eqn:He; [done |].
  simpl. by apply (exec_store_ok _ _ _ _ _ _ Hw He).
Qed.

Lemma keeps_requireAuth next rq :
  (∀ rq', keeps (next rq')) → keeps (requireAuth P cfg env next rq).
Proof.
  intros Hn. unfold requireAuth.
  destruct (blank (bearer rq)); [apply keeps_ret |].
  destruct (jwt_verify _ _ _ _); [apply keeps_ret | apply Hn].
Qed.

Create HintDb keeps.
#[local] Hint Resolve keeps_ret keeps_throw keeps_emit keeps_pool_query : keeps.

Ltac keeps_step :=
  first [ by auto with keeps
        | apply keeps_try_catch; intros
        | apply keeps_bind; intros
        | match goal with
          | |- keeps (if ?b then _ else _) => destruct b
          | |- keeps (match ?x with _ => _ end) => destruct x
          end ].

Lemma keeps_handler r rq : keeps (handler P cfg env r rq).
Proof.
  destruct r; simpl;
    unfold login, auth_check, get_productos, post_productos, put_productos,
      delete_productos, suscribirse, get_suscriptores, delete_suscriptores,
      get_test, contacto, compare, emails_send;
    repeat keeps_step.
Qed.

Lemma keeps_app r rq : keeps (app P cfg env r rq).
Proof.
  destruct (protected r) eqn:Hr.
  - rewrite (app_protected _ _ _ _ Hr). apply keeps_requireAuth.
    intros. apply keeps_handler.
  - rewrite (app_public _ _ _ _ Hr). apply keeps_handler.
Qed.

End Keeps.

(** Every request leaves the ids of the catalog unique and below the
    sequence. *)
Lemma serve_store_ok P cfg env r rq st :
  store_ok st → store_ok (final (serve P cfg env r rq st)).
Proof.
  intros Hok. unfold serve, run.
  pose proof (keeps_app P cfg env r rq {| store := st; trace := [] |} Hok)
    as H.
  by destruct (app P cfg env r rq _) as [[e | a] w].
Qed.



(** ** The catalog listing *)

#[global] Instance id_desc_trans : Transitive id_desc.
Proof. unfold id_desc. intros a b c ? ?. lia. Qed.

#[global] Instance id_desc_total : Total id_desc.
Proof. unfold id_desc. intros a b. lia. Qed.

Lemma sorted_strict l :
  StronglySorted id_desc l → NoDup (p_id <$> l) → StronglySorted id_above l.
Proof.
  induction 1 as [| a l Hs IH Hall]; [constructor |].
  rewrite fmap_cons, NoDup_cons. intros [Hni Hnd].
  constructor; [by apply IH |].
  rewrite Forall_forall in Hall |- *. intros b Hb.
  assert (p_id b ≠ p_id a).
  { intros E. apply Hni. rewrite <- E. by apply list_elem_of_fmap_2. }
  specialize (Hall b Hb). unfold id_desc in Hall. unfold id_above. lia.
Qed.

Lemma sorted_head_max l hd p :
  StronglySorted id_desc l → head l = Some hd → p ∈ l → p_id p ≤ p_id hd.
Proof.
  intros Hs Hh Hp. destruct l as [| a l]; [done |]. simpl in Hh.
  injection Hh as ->. apply StronglySorted_cons in Hs as [Hall _].
  apply elem_of_cons in Hp as [-> | Hp]; [lia |].
  rewrite Forall_forall in Hall. by apply Hall.
Qed.

Lemma listing_sorted l :
  NoDup (p_id <$> l) →
  merge_sort id_desc l ≡ₚ l
  ∧ StronglySorted id_above (merge_sort id_desc l).
Proof.
  intros Hnd. pose proof (merge_sort_Permutation id_desc l) as Hp.
  split; [done |]. apply sorted_strict.
  - apply StronglySorted_merge_sort; apply _.
  - by rewrite Hp.
Qed.

(** The row with the largest id, larger than every other, is listed
    first. *)
Lemma listing_newest_first l p :
  NoDup (p_id <$> l) → Forall (λ q, p_id q < p_id p) l →
  head (merge_sort id_desc (l ++ [p])) = Some p.
Proof.
  intros Hnd Hlt.
  pose proof (merge_sort_Permutation id_desc (l ++ [p])) as Hp.
  pose proof (StronglySorted_merge_sort id_desc (l ++ [p])) as Hs.
  destruct (merge_sort id_desc (l ++ [p])) as [| hd tl] eqn:E.
  - apply Permutation_nil_l in Hp. by destruct l.
  - simpl. f_equal.
    assert (Hhd : hd ∈ (l ++ [p])%list) by (rewrite <- Hp; left).
    apply elem_of_app in Hhd as [Hhd | Hhd].
    + exfalso. rewrite Forall_forall in Hlt. specialize (Hlt hd Hhd).
      assert (Hpin : p ∈ hd :: tl) by (rewrite Hp; set_solver).
      pose proof (sorted_head_max (hd :: tl) hd p Hs eq_refl Hpin). lia.
    + by apply list_elem_of_singleton in Hhd.
Qed.

(** C10.  On a store whose ids are unique, the catalog listing is the
    table in strictly descending id order, so its first row has the largest
    id; ids coming from the sequence, a row just created is the first row
    of the next listing. *)
Theorem get_productos_strictly_descending P cfg env rq st :
  db_fault env = None → store_ok st →
  ∃ l,
    serve P cfg env GetProductos rq st
    = {| out := Sent (json 200 (VArr (producto_row <$> l))); final := st;
         effects := [Query SelectProductos] |}
    ∧ l ≡ₚ productos st
    ∧ StronglySorted id_above l
    ∧ (∀ hd p, head l = Some hd → p ∈ productos st → p_id p ≤ p_id hd)
    ∧ (∀ n pr c s im nu r st',
         exec P (now env) (InsertProducto n pr c s im nu) st = inr (r, st') →
         ∃ p l',
           rows r = [producto_row p]
           ∧ store_ok st'
           ∧ out (serve P cfg env GetProductos rq st')
             = Sent (json 200 (VArr (producto_row <$> p :: l')))).
Proof.
  intros Hf Hok. pose proof Hok as (Hnd & Hlt & _).
  exists (merge_sort id_desc (productos st)).
  destruct (listing_sorted _ Hnd) as [Hp Hs].
  assert (Hget : ∀ s, serve P cfg env GetProductos rq s
    = {| out := Sent (json 200
                        (VArr (producto_row <$> merge_sort id_desc
                                                  (productos s))));
         final := s; effects := [Query SelectProductos] |}).
  { intros s. unfold serve, run, app, get_productos, try_catch, bind.
    erewrite pool_query_ok; [| done | reflexivity]. done. }
  split; [by apply Hget |]. split; [done |]. split; [done |]. split.
  - intros hd p Hh Hin.
    apply (sorted_head_max (merge_sort id_desc (productos st)) hd p);
      [| done |].
    + apply StronglySorted_merge_sort; apply _.
    + by rewrite Hp.
  - intros n pr c s im nu r st' He.
    pose proof (exec_store_ok _ _ _ _ _ _ Hok He) as Hok'.
    simpl in He. injection He as <- <-.
    set (p := set_columns n pr c s im nu _).
    assert (Hhead : head (merge_sort id_desc (productos st ++ [p]))
                    = Some p) by by apply listing_newest_first.
    destruct (merge_sort id_desc (productos st ++ [p])) as [| hd l'] eqn:E;
      [done |].
    simpl in Hhead. injection Hhead as ->.
    exists p, l'. split; [done |]. split; [done |].
    rewrite Hget. simpl. by rewrite E.
Qed.

Lemma get_productos_strictly_descending_witness :
  ∃ l,
    serve Toy.platform Toy.cfg Toy.env GetProductos Toy.plain Toy.db
    = {| out := Sent (json 200 (VArr (producto_row <$> l))); final := Toy.db;
         effects := [Query SelectProductos] |}
    ∧ l ≡ₚ productos Toy.db
    ∧ StronglySorted id_above l.
Proof.
  assert (Hok : store_ok Toy.db).
  { split; [| split].
    - apply (bool_decide_unpack _). vm_compute. reflexivity.
    - repeat constructor.
    - apply (bool_decide_unpack _). vm_compute. reflexivity. }
  destruct (get_productos_strictly_descending Toy.platform Toy.cfg Toy.env
              Toy.plain Toy.db eq_refl Hok)
    as [l [H1 [H2 [H3 _]]]].
  exists l. by repeat split.
Defined.

(** A token handed out by the login route carries the configured
    administrator's name. *)
Lemma login_token_identity P cfg env rq st v :
  out (serve P cfg env PostLogin rq st) = Sent (json 200 v) →
  ∃ a, ADMIN_USER cfg = Some a
       ∧ v = VObj [("token",
                    VStr (jwt_sign P (JWT_SECRET cfg) (now env) (VStr a)))].
Proof.
  unfold_routes. by_cases. intros [= <-].
  destruct (ADMIN_USER cfg) as [a |] eqn:Ha; [| done]. exists a.
  split; [done |].
  destruct (field "user" (body rq)) as [| | | | s | |]; try done.
  simpl in *. destruct (String.eqb_spec s a); [by subst | done].
Qed.

(** * Further properties of the routes *)

Arguments exec : simpl never.

Ltac route_cases :=
  repeat (simpl in *; try done;
          match goal with
          | |- context [blank ?x] => destruct (blank x) eqn:?
          | |- context [jwt_verify ?a ?b ?c ?d] =>
              destruct (jwt_verify a b c d) eqn:?
          | |- context [missing_fields ?a ?b ?c ?d] =>
              destruct (missing_fields a b c d) eqn:?
          | |- context [falsy ?x] => destruct (falsy x) eqn:?
          | |- context [strict_neq_str ?x ?y] =>
              destruct (strict_neq_str x y) eqn:?
          | |- context [bcrypt_compare ?p ?x ?y] =>
              destruct (bcrypt_compare p x y) as [[|] |] eqn:?
          | |- context [re_test ?r ?x] => destruct (re_test r x) eqn:?
          | |- context [db_fault ?e] => destruct (db_fault e) eqn:?
          | |- context [mail_fault ?e] => destruct (mail_fault e) eqn:?
          | |- context [exec ?p ?t ?q ?s] =>
              destruct (exec p t q s) as [? | [? ?]] eqn:?
          | |- context [Nat.eqb (rowCount ?r) 0] =>
              destruct (Nat.eqb (rowCount r) 0) eqn:?
          end).

Ltac open_routes := unfold_routes; unfold bind, emit, throw, ret.

(** ** What every route does and never does *)

Lemma exec_select_keeps P t q s r s' :
  is_select q = true → exec P t q s = inr (r, s') → s' = s.
Proof.
  unfold exec. destruct q; try done; intros _ He.
  - by simplify_eq.
  - destruct (pg_int P limit), (pg_int P offset); try done.
    destruct (_ || _); by simplify_eq.
  - by simplify_eq.
Qed.



(** X2.  The status of a response is one of those the route's registration
    writes. *)
Theorem status_in_route_table P cfg env r rq st resp :
  out (serve P cfg env r rq st) = Sent resp → status resp ∈ statuses r.
Proof.
  destruct r; open_routes; route_cases; intros [= <-]; simpl; set_solver.
Qed.

Lemma status_in_route_table_witness :
  404 ∈ statuses DeleteSuscriptores.
Proof.
  apply (status_in_route_table Toy.platform Toy.cfg Toy.env
           DeleteSuscriptores Toy.delete_999 Toy.db
           (json 404 (error_body "Suscriptor no encontrado"))).
  vm_compute. reflexivity.
Defined.

(** X3.  The login, the auth check, the two listings, the probe and the
    contact form leave the store as it was, whatever the request and
    whatever fails. *)
Theorem read_routes_leave_store P cfg env r rq st :
  read_only r = true → final (serve P cfg env r rq st) = st.
Proof.
  intros Hr. destruct r; try done; open_routes; route_cases;
    match goal with
    | H : exec _ _ _ _ = inr _ |- _ => by apply exec_select_keeps in H
    end.
Qed.

Lemma read_routes_leave_store_witness :
  final (serve Toy.platform Toy.cfg Toy.env GetSuscriptores
           (Toy.delete_one Toy.admin_token) Toy.db) = Toy.db.
Proof. by apply read_routes_leave_store. Defined.

(** X4.  No request makes more than one call to the outside: one statement,
    or one hash comparison, or one mail. *)
Theorem at_most_one_external_call P cfg env r rq st :
  (external_calls (effects (serve P cfg env r rq st)) ≤ 1)%nat.
Proof.
  destruct r; open_routes; route_cases; unfold external_calls; simpl; lia.
Qed.

(** X5.  On a protected route a 401 means the middleware refused: the store
    is as it was and no call was made.  The handlers behind the middleware
    never answer 401 themselves. *)
Theorem protected_401_means_untouched P cfg env r rq st resp :
  protected r = true →
  out (serve P cfg env r rq st) = Sent resp → status resp = 401 →
  serve P cfg env r rq st = rejected "Token faltante" st
  ∨ serve P cfg env r rq st = rejected "Token inválido" st.
Proof.
  intros Hr. destruct r; try done; open_routes; route_cases;
    intros [= <-]; simpl; intros; try done; auto.
Qed.

Lemma protected_401_means_untouched_witness :
  serve Toy.platform Toy.cfg Toy.env PutProductos Toy.plain Toy.db
  = rejected "Token faltante" Toy.db
  ∨ serve Toy.platform Toy.cfg Toy.env PutProductos Toy.plain Toy.db
    = rejected "Token inválido" Toy.db.
Proof.
  apply (protected_401_means_untouched Toy.platform Toy.cfg Toy.env
           PutProductos Toy.plain Toy.db
           (json 401 (error_body "Token faltante")));
    vm_compute; reflexivity.
Defined.

(** X6.  Whatever the request, a mail that leaves goes from the fixed sender
    to the fixed recipient under the fixed subject; no field of the request
    decides where it goes. *)
Theorem mail_only_to_fixed_recipient P cfg env r rq st :
  Forall fixed_mail (effects (serve P cfg env r rq st)).
Proof.
  destruct r; open_routes; route_cases;
    repeat (constructor; simpl; try done).
Qed.

(** X7.  The auth check answers exactly what the middleware does in front
    of a handler that echoes the attached identity: the two copies of the
    token extraction and verification agree on every request. *)
Theorem auth_check_is_gate_probe P cfg env rq :
  auth_check P cfg env rq = requireAuth P cfg env probe rq.
Proof.
  unfold auth_check, requireAuth, probe.
  destruct (blank (bearer rq)); [done |].
  by destruct (jwt_verify _ _ _ _).
Qed.

(** X8.  Served from the empty store, any sequence of requests leaves a
    store in which no two catalog rows share an id, every id is below the
    sequence and no two subscribers share an email. *)
Theorem replay_keeps_store_ok P cfg log :
  store_ok (replay P cfg log empty_store).
Proof.
  assert (H0 : store_ok empty_store).
  { split; [| split]; simpl; constructor. }
  revert H0. generalize empty_store. unfold replay.
  induction log as [| [[env r] rq] log IH]; intros s Hs; simpl; [done |].
  apply IH. by apply serve_store_ok.
Qed.

(** ** Updating and deleting catalog rows *)

Lemma fmap_update_miss k (f : producto → producto) l :
  existsb (has_id k) l = false →
  (λ p, if has_id k p then f p else p) <$> l = l.
Proof.
  induction l as [| a l IH]; [done |]. simpl.
  intros [Ha Hl]%orb_false_elim. rewrite Ha. f_equal. by apply IH.
Qed.


Lemma with_productos_same st :
  with_productos (productos st) (productos_seq st) st = st.
Proof. by destruct st. Qed.

(** X9.  An update that names an id no row has is answered 404 and leaves
    the store as it was. *)
Theorem put_productos_unknown_id P env rq st k :
  db_fault env = None →
  missing_fields (field "nombre" (body rq)) (field "precio" (body rq))
    (field "categoria" (body rq)) (field "stock" (body rq)) = false →
  pg_int P (VStr (params_id rq)) = Some k →
  existsb (has_id k) (productos st) = false →
  out (run (put_productos P env rq) st)
  = Sent (json 404 (error_body "Producto no encontrado"))
  ∧ final (run (put_productos P env rq) st) = st.
Proof.
  intros Hf Hm Hk Hno. unfold run, put_productos. rewrite Hm.
  unfold try_catch, bind.
  erewrite pool_query_ok; [| done |].
  2:{ unfold exec. rewrite Hk. cbn [store].
      rewrite (filter_existsb_false _ _ Hno), (fmap_update_miss _ _ _ Hno).
      rewrite with_productos_same. reflexivity. }
  done.
Qed.

Lemma put_productos_unknown_id_witness :
  out (run (put_productos Toy.platform Toy.env Toy.rename_999) Toy.db)
  = Sent (json 404 (error_body "Producto no encontrado"))
  ∧ final (run (put_productos Toy.platform Toy.env Toy.rename_999) Toy.db)
    = Toy.db.
Proof.
  apply (put_productos_unknown_id Toy.platform Toy.env Toy.rename_999
           Toy.db 999); vm_compute; reflexivity.
Defined.



(** X11.  A creation or an update with the name or the category falsy, or
    the price or the stock null or undefined, is answered 400 without a
    statement being sent. *)
Theorem catalog_validation_blocks_store P env rq st :
  falsy (field "nombre" (body rq)) = true
  ∨ nullish (field "precio" (body rq)) = true
  ∨ falsy (field "categoria" (body rq)) = true
  ∨ nullish (field "stock" (body rq)) = true →
  run (post_productos P env rq) st
  = {| out := Sent (json 400 (error_body "Faltan campos obligatorios"));
       final := st; effects := [] |}
  ∧ run (put_productos P env rq) st
    = {| out := Sent (json 400 (error_body "Faltan campos obligatorios"));
         final := st; effects := [] |}.
Proof.
  intros H. unfold run, post_productos, put_productos.
  assert (missing_fields (field "nombre" (body rq))
            (field "precio" (body rq)) (field "categoria" (body rq))
            (field "stock" (body rq)) = true) as ->; [| done].
  unfold missing_fields.
  destruct H as [-> | [-> | [-> | ->]]]; by rewrite ?orb_true_r.
Qed.

Lemma catalog_validation_blocks_store_witness :
  run (post_productos Toy.platform Toy.env Toy.plain) Toy.db
  = {| out := Sent (json 400 (error_body "Faltan campos obligatorios"));
       final := Toy.db; effects := [] |}
  ∧ run (put_productos Toy.platform Toy.env Toy.plain) Toy.db
    = {| out := Sent (json 400 (error_body "Faltan campos obligatorios"));
         final := Toy.db; effects := [] |}.
Proof. apply catalog_validation_blocks_store. by left. Defined.

(** ** Round trips through the catalog *)





Lemma filter_other_ids_all k (l : list producto) :
  Forall (λ p, p_id p < k) l →
  filter (λ p, has_id k p = false) l = l.
Proof.
  induction 1 as [| a l Ha _ IH]; [done |].
  rewrite filter_cons.
  destruct (decide (has_id k a = false)) as [_ | Hx]; [by rewrite IH |].
  exfalso. apply Hx. unfold has_id. apply Z.eqb_neq. lia.
Qed.

(** X13.  On a store whose ids are below the sequence, creating a row and
    then deleting the id it was given brings the catalog table back to what
    it was; only the sequence has moved on. *)
Theorem post_then_delete_restores_table P env env' rq rq' st :
  let r1 := run (post_productos P env rq) st in
  let r2 := run (delete_productos P env' rq') (final r1) in
  db_fault env = None → db_fault env' = None → store_ok st →
  missing_fields (field "nombre" (body rq)) (field "precio" (body rq))
    (field "categoria" (body rq)) (field "stock" (body rq)) = false →
  pg_int P (VStr (params_id rq')) = Some (productos_seq st) →
  out r2 = Sent (sendStatus 204)
  ∧ productos (final r2) = productos st
  ∧ productos_seq (final r2) = productos_seq st + 1
  ∧ suscriptores (final r2) = suscriptores st.
Proof.
  intros r1 r2 Hf Hf' (Hnd & Hlt & _) Hm Hk.
  assert (H1 : ∃ p, p_id p = productos_seq st
                    ∧ final r1 = with_productos (productos st ++ [p])
                                   (productos_seq st + 1) st).
  { subst r1. unfold run, post_productos. rewrite Hm.
    unfold try_catch, bind.
    erewrite pool_query_ok; [| done | reflexivity]. simpl.
    eexists. split; [| reflexivity]. reflexivity. }
  destruct H1 as [p [Hid H1]]. subst r2. rewrite H1.
  unfold run, delete_productos, try_catch, bind.
  erewrite pool_query_ok; [| done |].
  2:{ unfold exec. rewrite Hk. reflexivity. }
  simpl. split; [done |]. split; [| done].
  rewrite filter_app, (filter_other_ids_all _ _ Hlt).
  rewrite filter_cons.
  destruct (decide (has_id (productos_seq st) p = false)) as [Hx | _].
  - unfold has_id in Hx. rewrite Hid, Z.eqb_refl in Hx. done.
  - rewrite filter_nil. by rewrite app_nil_r.
Qed.

Lemma post_then_delete_restores_table_witness :
  productos
    (final (run (delete_productos Toy.platform Toy.later
                   (Toy.request None "3" []))
              (final (run (post_productos Toy.platform Toy.env
                             Toy.free_sample) Toy.db))))
  = productos Toy.db.
Proof.
  assert (Hok : store_ok Toy.db).
  { split; [| split].
    - apply (bool_decide_unpack _). vm_compute. reflexivity.
    - repeat constructor.
    - apply (bool_decide_unpack _). vm_compute. reflexivity. }
  exact (proj1 (proj2 (post_then_delete_restores_table Toy.platform Toy.env
                         Toy.later Toy.free_sample (Toy.request None "3" [])
                         Toy.db eq_refl eq_refl Hok eq_refl eq_refl))).
Defined.

(** X14.  After a deletion the store answers, no row of the catalog has the
    id, every row with another id is kept in place, and the same deletion
    sent again changes nothing and is answered 204 again. *)
Theorem delete_productos_removes_and_repeats P env env' rq st k :
  let r1 := run (delete_productos P env rq) st in
  let r2 := run (delete_productos P env' rq) (final r1) in
  db_fault env = None → db_fault env' = None →
  pg_int P (VStr (params_id rq)) = Some k →
  out r1 = Sent (sendStatus 204)
  ∧ productos (final r1) = filter (λ p, has_id k p = false) (productos st)
  ∧ existsb (has_id k) (productos (final r1)) = false
  ∧ out r2 = Sent (sendStatus 204)
  ∧ final r2 = final r1.
Proof.
  intros r1 r2 Hf Hf' Hk.
  assert (Hdel : ∀ e s, db_fault e = None →
    run (delete_productos P e rq) s
    = {| out := Sent (sendStatus 204);
         final := with_productos
                    (filter (λ p, has_id k p = false) (productos s))
                    (productos_seq s) s;
         effects := [Query (DeleteProducto (VStr (params_id rq)))] |}).
  { intros e s He. unfold run, delete_productos, try_catch, bind.
    erewrite pool_query_ok; [| done |].
    2:{ unfold exec. rewrite Hk. reflexivity. }
    done. }
  assert (Hgone : ∀ l : list producto,
            existsb (has_id k) (filter (λ p, has_id k p = false) l) = false).
  { intros l. destruct (existsb _ _) eqn:Hex; [| done].
    apply existsb_exists in Hex as [q [Hq Hid]].
    apply list_elem_of_In, list_elem_of_filter in Hq as [Hq _]. congruence. }
  subst r2 r1. rewrite (Hdel env st Hf). simpl. rewrite (Hdel env' _ Hf').
  simpl. repeat split; [apply Hgone |].
  unfold with_productos. simpl. f_equal.
  rewrite list_filter_filter. apply list_filter_iff. intros p. tauto.
Qed.

Lemma delete_productos_removes_and_repeats_witness :
  productos (final (run (delete_productos Toy.platform Toy.env
                           (Toy.delete_one Toy.admin_token)) Toy.db))
  = filter (λ p, has_id 1 p = false) (productos Toy.db).
Proof.
  exact (proj1 (proj2 (delete_productos_removes_and_repeats Toy.platform
                         Toy.env Toy.later (Toy.delete_one Toy.admin_token)
                         Toy.db 1 eq_refl eq_refl eq_refl))).
Defined.

(** X15.  Deleting a subscriber that exists is answered 200 and removes
    every row with the id; the same deletion sent again is answered 404 and
    changes nothing. *)
Theorem delete_suscriptores_twice P env env' rq st k :
  let r1 := run (delete_suscriptores P env rq) st in
  let r2 := run (delete_suscriptores P env' rq) (final r1) in
  db_fault env = None → db_fault env' = None →
  pg_int P (VStr (params_id rq)) = Some k →
  existsb (sus_has_id k) (suscriptores st) = true →
  out r1 = Sent (json 200
                   (VObj [("message",
                           VStr "Suscriptor eliminado correctamente ✅")]))
  ∧ suscriptores (final r1)
    = filter (λ r, sus_has_id k r = false) (suscriptores st)
  ∧ out r2 = Sent (json 404 (error_body "Suscriptor no encontrado"))
  ∧ final r2 = final r1.
Proof.
  intros r1 r2 Hf Hf' Hk Hin.
  assert (H1 : final r1
               = with_suscriptores
                   (filter (λ r, sus_has_id k r = false) (suscriptores st))
                   (suscriptores_seq st) st).
  { subst r1. unfold run, delete_suscriptores, try_catch, bind.
    erewrite pool_query_ok; [| done |].
    2:{ unfold exec. rewrite Hk. reflexivity. }
    simpl. by destruct (_ =? _)%nat. }
  assert (Hgone : existsb (sus_has_id k) (suscriptores (final r1)) = false).
  { rewrite H1. simpl.
    generalize (suscriptores st). intros l.
    destruct (existsb (sus_has_id k)
                (filter (λ r, sus_has_id k r = false) l)) eqn:Hex; [| done].
    apply existsb_exists in Hex as [q [Hq Hid]].
    apply list_elem_of_In, list_elem_of_filter in Hq as [Hq _]. congruence. }
  split; [by apply (delete_suscriptores_known_id _ _ _ _ k) |].
  split; [by rewrite H1 |].
  subst r2.
  rewrite (delete_suscriptores_unknown_id P env' rq (final r1) k Hf' Hk Hgone).
  done.
Qed.

Lemma delete_suscriptores_twice_witness :
  out (run (delete_suscriptores Toy.platform Toy.later
              (Toy.delete_one Toy.admin_token))
         (final (run (delete_suscriptores Toy.platform Toy.env
                        (Toy.delete_one Toy.admin_token)) Toy.db)))
  = Sent (json 404 (error_body "Suscriptor no encontrado")).
Proof.
  exact (proj1 (proj2 (proj2 (delete_suscriptores_twice Toy.platform Toy.env
                                Toy.later (Toy.delete_one Toy.admin_token)
                                Toy.db 1 eq_refl eq_refl eq_refl eq_refl)))).
Defined.

(** ** Login and the bearer header *)

(** X16.  The login answers 200 only when the submitted user is the
    configured administrator and the hash comparison says the password
    matches; the body is then the token signed for that name at the time of
    the request, and nothing else. *)
Theorem login_200_only_for_admin P cfg env rq st resp :
  out (serve P cfg env PostLogin rq st) = Sent resp → status resp = 200 →
  ∃ a h, ADMIN_USER cfg = Some a ∧ ADMIN_PASS_HASH cfg = Some h
         ∧ field "user" (body rq) = VStr a
         ∧ bcrypt_compare P (field "password" (body rq)) h = Some true
         ∧ payload resp
           = Some (VObj [("token",
                          VStr (jwt_sign P (JWT_SECRET cfg) (now env)
                                  (VStr a)))]).
Proof.
  open_routes. route_cases; intros [= <-]; simpl; try done. intros _.
  destruct (ADMIN_USER cfg) as [a |] eqn:Ha; [| done].
  destruct (ADMIN_PASS_HASH cfg) as [h |] eqn:Hh; [| done].
  exists a, h. simpl in *.
  destruct (field "user" (body rq)) as [| | | | s | |]; try done.
  simpl in *. destruct (String.eqb_spec s a); [by subst | done].
Qed.

Lemma login_200_only_for_admin_witness :
  ∃ a h, ADMIN_USER Toy.cfg = Some a ∧ ADMIN_PASS_HASH Toy.cfg = Some h
         ∧ field "user" (body (Toy.login_as "admin" "joyas")) = VStr a
         ∧ bcrypt_compare Toy.platform
             (field "password" (body (Toy.login_as "admin" "joyas"))) h
           = Some true
         ∧ payload (json 200
                      (VObj [("token",
                              VStr "1000.29800.admin.mac-s3cr3t-1000-29800-admin")]))
           = Some (VObj [("token",
                          VStr (jwt_sign Toy.platform (JWT_SECRET Toy.cfg)
                                  (now Toy.env) (VStr a)))]).
Proof.
  apply (login_200_only_for_admin Toy.platform Toy.cfg Toy.env
           (Toy.login_as "admin" "joyas") Toy.db);
    vm_compute; reflexivity.
Defined.

(** X17.  A token handed out by a successful login, sent back under any
    scheme word, passes the middleware as long as the clock is before the
    issuance time plus eight hours, with the administrator's name attached;
    from that second on the middleware answers 401.  The codec is taken by
    its contract: the token decodes to what was signed and holds no
    space. *)
Theorem login_token_opens_gate_for_8h P cfg env env' rq rq' st a h scheme
  next w :
  let pw := field "password" (body rq) in
  let secret := JWT_SECRET cfg in
  let c := {| user := VStr a; iat := now env; exp := now env + 8 * 3600 |} in
  let tok := jwt_sign P secret (now env) (VStr a) in
  ADMIN_USER cfg = Some a → a ≠ "" →
  ADMIN_PASS_HASH cfg = Some h → h ≠ "" →
  field "user" (body rq) = VStr a → truthy pw = true →
  bcrypt_compare P pw h = Some true →
  jws_decode P tok = Some {| jws_claims := c; jws_sig := jws_mac P secret c |} →
  no_sp tok = true → tok ≠ "" → no_sp scheme = true →
  authorization rq' = Some (scheme +:+ " " +:+ tok) →
  out (serve P cfg env PostLogin rq st)
  = Sent (json 200 (VObj [("token", VStr tok)]))
  ∧ (now env' < now env + 8 * 3600 →
     requireAuth P cfg env' next rq' w = next (set_user (VStr a) rq') w)
  ∧ (now env + 8 * 3600 ≤ now env' →
     requireAuth P cfg env' next rq' w
     = (inr (json 401 (error_body "Token inválido")), w)).
Proof.
  intros pw secret c tok Ha Hane Hh Hhne Hu Hpw Hcmp Hdec Hsp Hne Hsch Hauth.
  pose proof (bearer_scheme _ _ _ Hsch Hsp Hauth) as Hb.
  split; [| split].
  - unfold serve, run, app, login, falsy. fold pw.
    rewrite Hu, Hpw, Ha, Hh. simpl.
    destruct (String.eqb_spec a ""); [done |].
    destruct (String.eqb_spec h ""); [done |]. simpl.
    rewrite String.eqb_refl. simpl.
    unfold bind, compare, bind, emit, ret. simpl. by rewrite Hcmp.
  - intros Hlt.
    apply (requireAuth_valid _ _ _ _ _ _ tok c Hb Hne).
    unfold jwt_verify. fold secret. rewrite Hdec. simpl.
    rewrite String.eqb_refl.
    destruct (Z.leb_spec (now env + 8 * 3600) (now env')); [lia | done].
  - intros Hge.
    apply (requireAuth_invalid _ _ _ _ _ _ tok Expired Hb Hne).
    unfold jwt_verify. fold secret. rewrite Hdec. simpl.
    rewrite String.eqb_refl.
    destruct (Z.leb_spec (now env + 8 * 3600) (now env')); [done | lia].
Qed.

Lemma login_token_opens_gate_for_8h_witness :
  requireAuth Toy.platform Toy.cfg Toy.later
    (delete_productos Toy.platform Toy.later) (Toy.delete_one Toy.fresh_token)
    {| store := Toy.db; trace := [] |}
  = delete_productos Toy.platform Toy.later
      (set_user (VStr "admin") (Toy.delete_one Toy.fresh_token))
      {| store := Toy.db; trace := [] |}.
Proof.
  assert (Ha : "admin" ≠ "") by discriminate.
  assert (Hh : "$2b$joyas" ≠ "") by discriminate.
  assert (Hne : Toy.fresh_token ≠ "") by (vm_compute; discriminate).
  refine (proj1 (proj2 (login_token_opens_gate_for_8h Toy.platform Toy.cfg
            Toy.env Toy.later (Toy.login_as "admin" "joyas")
            (Toy.delete_one Toy.fresh_token) Toy.db "admin" "$2b$joyas"
            "Bearer" (delete_productos Toy.platform Toy.later)
            {| store := Toy.db; trace := [] |}
            eq_refl Ha eq_refl Hh eq_refl eq_refl eq_refl _ _ Hne eq_refl
            eq_refl)) _); vm_compute; reflexivity.
Defined.

Lemma append_empty_r (s : string) : s +:+ "" = s.
Proof.
  induction s as [| c s IH]; [done |].
  change (String c (s +:+ "") = String c s). by f_equal.
Qed.

(** X18.  Only the second word of the header counts.  Words after the token
    are ignored, and two spaces between the scheme and a valid token make
    the second word empty, which is answered 401 as a missing token. *)
Theorem bearer_takes_second_word_only P cfg env scheme t rest c rq next w :
  no_sp scheme = true → no_sp t = true → t ≠ "" →
  jwt_verify P (JWT_SECRET cfg) (now env) t = inr c →
  (authorization rq = Some (scheme +:+ " " +:+ t +:+ " " +:+ rest) →
     requireAuth P cfg env next rq w = next (set_user (user c) rq) w)
  ∧ (authorization rq = Some (scheme +:+ "  " +:+ t) →
     requireAuth P cfg env next rq w
     = (inr (json 401 (error_body "Token faltante")), w)).
Proof.
  intros Hs Ht Hne Hv. split; intros Ha.
  - apply (requireAuth_valid _ _ _ _ _ _ t c); [| done | done].
    unfold bearer. rewrite Ha. simpl.
    destruct (String.eqb_spec (scheme +:+ " " +:+ t +:+ " " +:+ rest) "")
      as [E | _]; [by destruct scheme |].
    rewrite (split_sp_prefix _ _ Hs).
    change (" " +:+ t +:+ " " +:+ rest)
      with (String " " (t +:+ String " " rest)).
    cbn [split_sp is_sp]. change (Ascii.eqb " " " ") with true. cbv iota.
    rewrite (split_sp_prefix _ _ Ht).
    cbn [split_sp is_sp]. change (Ascii.eqb " " " ") with true. cbv iota.
    destruct (split_sp_cons rest) as [x [xs ->]]. simpl.
    by rewrite append_empty_r.
  - apply requireAuth_missing. unfold bearer. rewrite Ha. simpl.
    destruct (String.eqb_spec (scheme +:+ "  " +:+ t) "")
      as [E | _]; [by destruct scheme |].
    rewrite (split_sp_prefix _ _ Hs).
    change ("  " +:+ t) with (String " " (String " " t)).
    cbn [split_sp is_sp]. change (Ascii.eqb " " " ") with true. cbv iota.
    by destruct (split_sp_cons t) as [x [xs ->]].
Qed.

Lemma bearer_takes_second_word_only_witness :
  requireAuth Toy.platform Toy.cfg Toy.env
    (delete_productos Toy.platform Toy.env)
    (Toy.request (Some ("Bearer  " +:+ Toy.admin_token)) "1" [])
    {| store := Toy.db; trace := [] |}
  = (inr (json 401 (error_body "Token faltante")),
     {| store := Toy.db; trace := [] |}).
Proof.
  assert (Hne : Toy.admin_token ≠ "") by (vm_compute; discriminate).
  refine (proj2 (bearer_takes_second_word_only Toy.platform Toy.cfg Toy.env
            "Bearer" Toy.admin_token ""
            {| user := VStr "admin"; iat := 900; exp := 29700 |}
            (Toy.request (Some ("Bearer  " +:+ Toy.admin_token)) "1" [])
            (delete_productos Toy.platform Toy.env)
            {| store := Toy.db; trace := [] |} eq_refl _ Hne _) eq_refl);
    vm_compute; reflexivity.
Defined.

(** ** Subscribers *)

(** X19.  For an email that is a string, the subscription reaches the store
    exactly when the string has the shape [a@b.c], the three parts non-empty
    and free of white space and [@]; any other string is answered 400
    without a statement being sent. *)
Theorem suscribirse_validates_email_shape P cfg env rq st s :
  field "email" (body rq) = VStr s →
  (email_shape s →
     ∃ rest, effects (serve P cfg env PostSuscribirse rq st)
             = Query (InsertSuscriptor (VStr s)) :: rest)
  ∧ (¬ email_shape s →
     serve P cfg env PostSuscribirse rq st
     = {| out := Sent (json 400 (error_body "Correo electrónico no válido"));
          final := st; effects := [] |}).
Proof.
  intros He. unfold serve, run, app, suscribirse, falsy. rewrite He. simpl.
  split.
  - intros Hshape. pose proof Hshape as Hre.
    apply email_re_shape in Hre. rewrite Hre.
    destruct Hshape as (a & b & c & -> & [Hne _] & _).
    destruct a as [| x a]; [done |]. simpl.
    open_routes. route_cases; eauto.
  - intros Hno. destruct (re_test email_re s) eqn:Hre.
    + exfalso. apply Hno. by apply email_re_shape.
    + by rewrite orb_true_r.
Qed.

Lemma suscribirse_validates_email_shape_witness :
  serve Toy.platform Toy.cfg Toy.env PostSuscribirse
    (Toy.subscribe "bea@example") Toy.db
  = {| out := Sent (json 400 (error_body "Correo electrónico no válido"));
       final := Toy.db; effects := [] |}.
Proof.
  refine (proj2 (suscribirse_validates_email_shape Toy.platform Toy.cfg
                   Toy.env (Toy.subscribe "bea@example") Toy.db
                   "bea@example" eq_refl) _).
  intros H. apply email_re_shape in H. vm_compute in H. discriminate.
Defined.


#[global] Instance fecha_desc_trans : Transitive fecha_desc.
Proof. unfold fecha_desc. intros a b c ? ?. lia. Qed.

#[global] Instance fecha_desc_total : Total fecha_desc.
Proof. unfold fecha_desc. intros a b. lia. Qed.

Lemma StronglySorted_sublist {A} (R : relation A) (k l : list A) :
  k `sublist_of` l → StronglySorted R l → StronglySorted R k.
Proof.
  induction 1 as [| x k l Hs IH | x k l Hs IH]; intros Hl; [done | |].
  - apply StronglySorted_cons in Hl as [Hall Hl].
    apply StronglySorted_cons. split; [| by apply IH].
    rewrite Forall_forall in Hall |- *. intros y Hy. apply Hall.
    by apply (elem_of_sublist k l).
  - apply StronglySorted_cons in Hl as [_ Hl]. by apply IH.
Qed.

(** X20.  The subscriber listing the store answers is a page of at most
    [limit] rows of the table, newest first, and leaves the store as it
    was; a limit or an offset the store cannot take as a non-negative
    integer is answered 500 with the constant message. *)
Theorem get_suscriptores_page P env rq st :
  let lim := field_or "limit" (num 50) (query rq) in
  let off := field_or "offset" (num 0) (query rq) in
  let r := run (get_suscriptores P env rq) st in
  db_fault env = None →
  (∀ l o, pg_int P lim = Some l → pg_int P off = Some o → 0 ≤ l → 0 ≤ o →
     ∃ page,
       out r = Sent (json 200 (VArr (suscriptor_row <$> page)))
       ∧ final r = st
       ∧ (length page ≤ Z.to_nat l)%nat
       ∧ (∀ x, x ∈ page → x ∈ suscriptores st)
       ∧ StronglySorted fecha_desc page)
  ∧ (pg_int P lim = None ∨ pg_int P off = None
     ∨ (∃ l, pg_int P lim = Some l ∧ l < 0)
     ∨ (∃ o, pg_int P off = Some o ∧ o < 0) →
     out r = Sent (json 500
                     (error_body "Error al obtener la lista de suscriptores"))
     ∧ final r = st).
Proof.
  intros lim off r Hf. split.
  - intros l o Hl Ho Hl0 Ho0.
    set (pat := "%" +:+ text P (field_or "search" (VStr "") (query rq))
                +:+ "%").
    set (hit := filter (λ x, ilike P (s_email x) pat
                             || ilike P (to_char_day P (s_fecha x)) pat
                             = true) (suscriptores st)).
    set (page := take (Z.to_nat l)
                   (drop (Z.to_nat o) (merge_sort fecha_desc hit))).
    exists page. subst r. unfold run, get_suscriptores, try_catch, bind.
    fold lim off pat.
    erewrite pool_query_ok; [| done |].
    2:{ unfold exec. rewrite Hl, Ho.
        destruct (Z.ltb_spec l 0); [lia |].
        destruct (Z.ltb_spec o 0); [lia |]. simpl. reflexivity. }
    simpl. fold hit page. split; [done |]. split; [done |].
    split; [| split].
    + subst page. rewrite length_take. lia.
    + intros x Hx. subst page.
      apply (λ H, elem_of_sublist _ _ _ H (sublist_take _ _)) in Hx.
      apply (λ H, elem_of_sublist _ _ _ H (sublist_drop _ _)) in Hx.
      rewrite merge_sort_Permutation in Hx.
      by apply list_elem_of_filter in Hx as [_ Hx].
    + subst page.
      apply (StronglySorted_sublist _ _ _ (sublist_take _ _)).
      apply (StronglySorted_sublist _ _ _ (sublist_drop _ _)).
      apply StronglySorted_merge_sort; apply _.
  - intros Hbad. subst r. unfold run, get_suscriptores, try_catch, bind.
    fold lim off.
    erewrite pool_query_reject; [done | done |].
    unfold exec.
    destruct Hbad as [-> | [Ho | [[l [-> Hl]] | [o [Ho Hlt]]]]]; [done | | |].
    + rewrite Ho. by destruct (pg_int P lim).
    + destruct (pg_int P off); [| done].
      by destruct (Z.ltb_spec l 0); [| lia].
    + rewrite Ho. destruct (pg_int P lim) as [l |]; [| done].
      destruct (Z.ltb_spec o 0); [| lia]. by rewrite orb_true_r.
Qed.

Lemma get_suscriptores_page_witness :
  out (run (get_suscriptores Toy.platform Toy.env Toy.negative_limit) Toy.db)
  = Sent (json 500 (error_body "Error al obtener la lista de suscriptores")).
Proof.
  refine (proj1 (proj2 (get_suscriptores_page Toy.platform Toy.env
                          Toy.negative_limit Toy.db eq_refl) _)).
  right. right. left. exists (-1). split; [vm_compute; reflexivity | lia].
Defined.

(** ** What the handlers read of a request *)

(** X21.  No handler reads the identity the middleware attaches: behind the
    middleware, two requests that differ only in [req.user] are served the
    same. *)
Theorem handlers_ignore_identity P cfg env r rq u1 u2 :
  handler P cfg env r (set_user u1 rq) = handler P cfg env r (set_user u2 rq).
Proof. by destruct r. Qed.

(** X22.  The routes registered without the middleware, the auth check
    apart, never look at the Authorization header: with or without it, and
    whatever it holds, the request is served the same. *)
Theorem public_routes_ignore_header P cfg env r rq auth st :
  protected r = false → r ≠ GetAuthCheck →
  serve P cfg env r
    {| authorization := auth; body := body rq; params_id := params_id rq;
       query := query rq; req_user := req_user rq |} st
  = serve P cfg env r rq st.
Proof. intros Hp Hr. by destruct r. Qed.

Lemma public_routes_ignore_header_witness :
  serve Toy.platform Toy.cfg Toy.env GetProductos
    {| authorization := Some "Bearer nonsense"; body := body Toy.plain;
       params_id := params_id Toy.plain; query := query Toy.plain;
       req_user := req_user Toy.plain |} Toy.db
  = serve Toy.platform Toy.cfg Toy.env GetProductos Toy.plain Toy.db.
Proof.
  apply public_routes_ignore_header; [reflexivity | discriminate].
Defined.


